(** * Digital asset registry canister (src/src/index.ts)

    A shallow embedding of the Express handlers of the registry and of the
    utility functions they call, followed by the properties of the
    asset/ownership state machine.

    Conventions of the embedding:
    - [StableBTreeMap<string, V>] is a [gmap string V]; its [get] returns
      the [Opt] of azle, here [option];
    - a [Date] is its number of milliseconds, a [Z]; [ic.time()] is constant
      during one call, so a handler receives one [now];
    - [uuidv4()] is an input of the handler that calls it;
    - a request carries values of the types the source declares: strings
      for identifiers, a [TransferType] for [transferType];
    - a handler body is a computation in the monad [M]: it threads the
      canister state and may throw; writes made before a throw stay, as in
      the source, where [catch] only builds the response;
    - [log] only prints and is left out. *)

From Stdlib Require Import ZArith Lia Ascii String.
From stdpp Require Import gmap strings list fin_maps.

Local Open Scope Z_scope.

(** ** Data model *)

Inductive AssetType := IMAGE | AUDIO | VIDEO | DOCUMENT | CODE.

Inductive AssetStatus := ACTIVE | TRANSFERRED | REVOKED | DELETED.

Inductive TransferType := FULL | LICENSE.

#[global] Instance AssetType_eq_dec : EqDecision AssetType.
Proof. solve_decision. Defined.

#[global] Instance AssetStatus_eq_dec : EqDecision AssetStatus.
Proof. solve_decision. Defined.

#[global] Instance TransferType_eq_dec : EqDecision TransferType.
Proof. solve_decision. Defined.

Definition Date := Z.

(** [class Transfer]; its [id] field is [transferId] here. *)
Record Transfer := mkTransfer {
  transferId : string;
  fromId : string;
  toId : string;
  transferDate : Date;
  transferType : TransferType
}.

(** [class AssetMetadata]. The stored object is whatever JSON object the
    request carried, so every key may be missing. *)
Record AssetMetadata := mkAssetMetadata {
  fileFormat : option string;
  fileSize : option Z;
  dimensions : option string;
  duration : option Z;
  additionalTags : option (list string)
}.

(** [class DigitalAsset]; its [id] field is [assetId] here. *)
Record DigitalAsset := mkDigitalAsset {
  assetId : string;
  title : string;
  description : string;
  assetType : AssetType;
  creatorId : string;
  contentHash : string;
  registrationDate : Date;
  lastModified : Date;
  transferHistory : list Transfer;
  status : AssetStatus;
  metadata : AssetMetadata
}.

(** ** Canister state

    [assetTransfers] is declared in the source and never read or written;
    it is not part of the state. [timers] holds the callbacks that
    [rateLimit] hands to [setTimeout], oldest first. *)
Record State := mkState {
  assetStorage : gmap string DigitalAsset;
  creatorAssets : gmap string (list string);
  rateLimiter : gmap string Z;
  timers : list (string * Z)
}.

Definition init : State :=
  {| assetStorage := ∅; creatorAssets := ∅; rateLimiter := ∅; timers := [] |}.

(** ** Responses and errors *)

Inductive Exn :=
| AppError (message : string) (statusCode : Z)
| TypeError (message : string).

Inductive Response :=
| JsonAsset (asset : DigitalAsset)
| JsonPage (assets : list DigitalAsset) (total page limit : Z)
| JsonMessage (message : string)
| JsonError (statusCode : Z) (error : string).

(** [handleError]: an [AppError] keeps its status code, anything else is
    a 500. *)
Definition handleError (error : Exn) : Response :=
  match error with
  | AppError message statusCode => JsonError statusCode message
  | TypeError message => JsonError 500 message
  end.

(** ** The handler monad *)

Definition M (A : Type) : Type := State → State * (Exn + A).

#[global] Instance M_ret : MRet M := λ A a s, (s, inr a).

#[global] Instance M_bind : MBind M := λ A B f m s,
  match m s with
  | (s', inr a) => f a s'
  | (s', inl e) => (s', inl e)
  end.

Definition throw {A} (e : Exn) : M A := λ s, (s, inl e).

(** [try { ... } catch (error) { handleError(res, error) }] *)
Definition tryCatch (body : M Response) (s : State) : State * Response :=
  match body s with
  | (s', inr r) => (s', r)
  | (s', inl e) => (s', handleError e)
  end.

Definition assetStorage_get (key : string) : M (option DigitalAsset) :=
  λ s, (s, inr (assetStorage s !! key)).

Definition assetStorage_insert (key : string) (value : DigitalAsset) : M unit :=
  λ s, ({| assetStorage := <[key := value]> (assetStorage s);
           creatorAssets := creatorAssets s;
           rateLimiter := rateLimiter s;
           timers := timers s |}, inr tt).

Definition creatorAssets_get (key : string) : M (option (list string)) :=
  λ s, (s, inr (creatorAssets s !! key)).

Definition creatorAssets_insert (key : string) (value : list string) : M unit :=
  λ s, ({| assetStorage := assetStorage s;
           creatorAssets := <[key := value]> (creatorAssets s);
           rateLimiter := rateLimiter s;
           timers := timers s |}, inr tt).

(** ** Utility functions *)

(** [isAuthorized] *)
Definition isAuthorized (assetId userId : string) : M bool :=
  assetOpt ← assetStorage_get assetId;
  match assetOpt with
  | None => mret false
  | Some asset => mret (bool_decide (creatorId asset = userId))
  end.

(** [rateLimit]: [rateLimiter.get(userId) || 0], the comparison with the
    limit, the increment, and the callback handed to [setTimeout]. *)
Definition rateLimit (userId : string) (limit : Z) : M bool :=
  λ s,
    let userRequests := default 0 (rateLimiter s !! userId) in
    if limit <=? userRequests then (s, inr false)
    else ({| assetStorage := assetStorage s;
             creatorAssets := creatorAssets s;
             rateLimiter := <[userId := userRequests + 1]> (rateLimiter s);
             timers := timers s ++ [(userId, userRequests)] |}, inr true).

(** The callback [() => rateLimiter.set(userId, userRequests)] of the
    oldest pending timer. *)
Definition timerFires (s : State) : State :=
  match timers s with
  | [] => s
  | (userId, userRequests) :: rest =>
      {| assetStorage := assetStorage s;
         creatorAssets := creatorAssets s;
         rateLimiter := <[userId := userRequests]> (rateLimiter s);
         timers := rest |}
  end.

Definition isHex (c : ascii) : bool :=
  let n := Z.of_nat (nat_of_ascii c) in
  ((48 <=? n) && (n <=? 57)) || ((65 <=? n) && (n <=? 70))
  || ((97 <=? n) && (n <=? 102)).

Definition chars (s : string) : list ascii := list_ascii_of_string s.

(** [/^[a-fA-F0-9]{64}$/] *)
Definition isContentHash (s : string) : bool :=
  bool_decide (length (chars s) = 64%nat) && forallb isHex (chars s).

Definition hyphen : ascii := ascii_of_nat 45.

Fixpoint matchGroups (groups : list nat) (cs : list ascii) : bool :=
  match groups with
  | [] => bool_decide (cs = [])
  | n :: rest =>
      let g := take n cs in
      let tl := drop n cs in
      bool_decide (length g = n) && forallb isHex g &&
      match rest with
      | [] => bool_decide (tl = [])
      | _ => match tl with
             | c :: tl' => bool_decide (c = hyphen) && matchGroups rest tl'
             | [] => false
             end
      end
  end.

(** [/^[0-9a-fA-F]{8}-[0-9a-fA-F]{4}-[0-9a-fA-F]{4}-[0-9a-fA-F]{4}-[0-9a-fA-F]{12}$/] *)
Definition isUuid (s : string) : bool :=
  matchGroups [8; 4; 4; 4; 12]%nat (chars s).

(** [validateAssetRegistration]. [!data.title] is the test for the empty
    string, and [.length] is [String.length] on the ASCII strings of the
    model. The request carries [assetType] already
    read against the enumeration ([None]: not one of its five values) and
    [metadata] as an optional object ([None]: missing or not an object).
    The source function returns nothing; this one returns the two checked
    values, which the handler then stores. *)
Definition validateAssetRegistration (title creatorId contentHash : string)
    (assetType : option AssetType) (metadata : option AssetMetadata)
    : M (AssetType * AssetMetadata) :=
  if bool_decide (title = EmptyString) || (100 <? Z.of_nat (String.length title)) then
    throw (AppError "Invalid title" 400)
  else if bool_decide (creatorId = EmptyString) || negb (isUuid creatorId) then
    throw (AppError "Invalid creator ID" 400)
  else if bool_decide (contentHash = EmptyString) || negb (isContentHash contentHash) then
    throw (AppError "Invalid content hash" 400)
  else match assetType with
  | None => throw (AppError "Invalid asset type" 400)
  | Some ty =>
      match metadata with
      | None => throw (AppError "Invalid metadata" 400)
      | Some md => mret (ty, md)
      end
  end.

(** [Array.prototype.slice(start, end)] on integers. *)
Definition slice {A} (l : list A) (start end_ : Z) : list A :=
  let len := Z.of_nat (length l) in
  let k := if start <? 0 then Z.max (len + start) 0 else Z.min start len in
  let final := if end_ <? 0 then Z.max (len + end_) 0 else Z.min end_ len in
  take (Z.to_nat (final - k)) (drop (Z.to_nat k) l).

(** [parseInt(q) || d]: [None] is [NaN]; [NaN] and [0] are falsy. *)
Definition orDefault (parsed : option Z) (d : Z) : Z :=
  match parsed with
  | None => d
  | Some n => if n =? 0 then d else n
  end.

(** [{ ...old, ...patch }] on metadata objects. *)
Definition mergeMetadata (old patch : AssetMetadata) : AssetMetadata :=
  {| fileFormat := from_option Some (fileFormat old) (fileFormat patch);
     fileSize := from_option Some (fileSize old) (fileSize patch);
     dimensions := from_option Some (dimensions old) (dimensions patch);
     duration := from_option Some (duration old) (duration patch);
     additionalTags :=
       from_option Some (additionalTags old) (additionalTags patch) |}.

(** ** Handlers *)

(** Message of the [TypeError] that reading [.filter] of [undefined]
    raises; its text depends on the engine and no property depends on it. *)
Definition undefinedFilter : string :=
  "Cannot read properties of undefined (reading 'filter')".

(** [POST /assets] *)
Definition createAsset (title description : string)
    (assetType : option AssetType) (creatorId contentHash : string)
    (metadata : option AssetMetadata) (uuid : string) (now : Date)
    : M Response :=
  allowed ← rateLimit creatorId 10;
  if negb allowed then throw (AppError "Too many requests" 429) else
  checked ← validateAssetRegistration title creatorId contentHash
              assetType metadata;
  let asset :=
    {| assetId := uuid;
       title := title;
       description := description;
       assetType := checked.1;
       creatorId := creatorId;
       contentHash := contentHash;
       registrationDate := now;
       lastModified := now;
       transferHistory := [];
       status := ACTIVE;
       metadata := checked.2 |} in
  assetStorage_insert uuid asset;;
  creatorAssetList ← creatorAssets_get creatorId;
  match creatorAssetList with
  | None => creatorAssets_insert creatorId [uuid]
  | Some l => creatorAssets_insert creatorId (l ++ [uuid])
  end;;
  mret (JsonAsset asset).

(** [GET /assets/:id] *)
Definition getAssetById (id : string) : M Response :=
  assetOpt ← assetStorage_get id;
  match assetOpt with
  | None => throw (AppError "Asset not found" 404)
  | Some asset => mret (JsonAsset asset)
  end.

(** [ids.map(assetId => ... "None" in asset ? null : asset.Some)
        .filter(asset => asset !== null)] *)
Fixpoint resolveAssets (ids : list string) : M (list DigitalAsset) :=
  match ids with
  | [] => mret []
  | i :: rest =>
      asset ← assetStorage_get i;
      found ← resolveAssets rest;
      mret (match asset with
            | None => found
            | Some a => a :: found
            end)
  end.

(** [GET /creators/:creatorId/assets]. [queryPage] and [queryLimit] are
    the results of [parseInt] on the query strings. *)
Definition getAssetsByCreator (creator : string)
    (queryPage queryLimit : option Z) : M Response :=
  let page := orDefault queryPage 1 in
  let limit := orDefault queryLimit 10 in
  creatorAssetsOpt ← creatorAssets_get creator;
  match creatorAssetsOpt with
  | None => mret (JsonPage [] 0 page limit)
  | Some allAssets =>
      let startIndex := (page - 1) * limit in
      let endIndex := page * limit in
      paginatedAssets ← resolveAssets (slice allAssets startIndex endIndex);
      mret (JsonPage paginatedAssets (Z.of_nat (length allAssets)) page limit)
  end.

(** [POST /assets/:id/transfer] *)
Definition transferAsset (id from to : string) (type : TransferType)
    (uuid : string) (now : Date) : M Response :=
  authorized ← isAuthorized id from;
  if negb authorized then throw (AppError "Unauthorized" 403) else
  assetOpt ← assetStorage_get id;
  match assetOpt with
  | None => throw (AppError "Asset not found" 404)
  | Some asset =>
      if negb (bool_decide (status asset = ACTIVE)) then
        throw (AppError "Asset is not available for transfer" 400)
      else
      let transfer :=
        {| transferId := uuid;
           fromId := creatorId asset;
           toId := to;
           transferDate := now;
           transferType := type |} in
      let updatedAsset :=
        {| assetId := assetId asset;
           title := title asset;
           description := description asset;
           assetType := assetType asset;
           creatorId := creatorId asset;
           contentHash := contentHash asset;
           registrationDate := registrationDate asset;
           lastModified := now;
           transferHistory := transferHistory asset ++ [transfer];
           status := if bool_decide (type = FULL) then TRANSFERRED else ACTIVE;
           metadata := metadata asset |} in
      (if bool_decide (type = FULL) then
         oldCreatorAssetsOpt ← creatorAssets_get (creatorId asset);
         match oldCreatorAssetsOpt with
         | None => throw (TypeError undefinedFilter)
         | Some oldCreatorAssets =>
             creatorAssets_insert (creatorId asset)
               (filter (λ i, i ≠ assetId asset) oldCreatorAssets);;
             newCreatorAssetsOpt ← creatorAssets_get to;
             match newCreatorAssetsOpt with
             | None => creatorAssets_insert to [assetId asset]
             | Some l => creatorAssets_insert to (l ++ [assetId asset])
             end
         end
       else mret tt);;
      assetStorage_insert (assetId asset) updatedAsset;;
      mret (JsonAsset updatedAsset)
  end.

(** [PUT /assets/:id/metadata]. [patch] is [req.body.metadata]; a missing
    one spreads to nothing and is the patch with no key. *)
Definition updateAssetMetadata (id creator : string) (patch : AssetMetadata)
    (now : Date) : M Response :=
  authorized ← isAuthorized id creator;
  if negb authorized then throw (AppError "Unauthorized" 403) else
  assetOpt ← assetStorage_get id;
  match assetOpt with
  | None => throw (AppError "Asset not found" 404)
  | Some asset =>
      let updatedAsset :=
        {| assetId := assetId asset;
           title := title asset;
           description := description asset;
           assetType := assetType asset;
           creatorId := creatorId asset;
           contentHash := contentHash asset;
           registrationDate := registrationDate asset;
           lastModified := now;
           transferHistory := transferHistory asset;
           status := status asset;
           metadata := mergeMetadata (metadata asset) patch |} in
      assetStorage_insert (assetId asset) updatedAsset;;
      mret (JsonAsset updatedAsset)
  end.

(** [{ ...asset, status: newStatus, lastModified: getCurrentDate() }] *)
Definition withStatus (asset : DigitalAsset) (newStatus : AssetStatus)
    (now : Date) : DigitalAsset :=
  {| assetId := assetId asset;
     title := title asset;
     description := description asset;
     assetType := assetType asset;
     creatorId := creatorId asset;
     contentHash := contentHash asset;
     registrationDate := registrationDate asset;
     lastModified := now;
     transferHistory := transferHistory asset;
     status := newStatus;
     metadata := metadata asset |}.

(** [POST /assets/:id/revoke] *)
Definition revokeAsset (id creator : string) (now : Date) : M Response :=
  authorized ← isAuthorized id creator;
  if negb authorized then throw (AppError "Unauthorized" 403) else
  assetOpt ← assetStorage_get id;
  match assetOpt with
  | None => throw (AppError "Asset not found" 404)
  | Some asset =>
      if bool_decide (status asset = REVOKED) then
        throw (AppError "Asset is already revoked" 400)
      else
      let updatedAsset := withStatus asset REVOKED now in
      assetStorage_insert (assetId asset) updatedAsset;;
      mret (JsonAsset updatedAsset)
  end.

(** [DELETE /assets/:id] *)
Definition deleteAsset (id creator : string) (now : Date) : M Response :=
  authorized ← isAuthorized id creator;
  if negb authorized then throw (AppError "Unauthorized" 403) else
  assetOpt ← assetStorage_get id;
  match assetOpt with
  | None => throw (AppError "Asset not found" 404)
  | Some asset =>
      let updatedAsset := withStatus asset DELETED now in
      assetStorage_insert (assetId asset) updatedAsset;;
      mret (JsonMessage "Asset deleted successfully")
  end.

(** ** The canister as a state machine *)

Inductive Op :=
| CreateAsset (title description : string) (assetType : option AssetType)
    (creatorId contentHash : string) (metadata : option AssetMetadata)
    (uuid : string) (now : Date)
| GetAssetById (id : string)
| GetAssetsByCreator (creator : string) (queryPage queryLimit : option Z)
| TransferAsset (id from to : string) (type : TransferType)
    (uuid : string) (now : Date)
| UpdateAssetMetadata (id creator : string) (patch : AssetMetadata)
    (now : Date)
| RevokeAsset (id creator : string) (now : Date)
| DeleteAsset (id creator : string) (now : Date)
| TimerFires.

(** What one event does; a timer sends no response. *)
Definition exec (s : State) (op : Op) : State * option Response :=
  let respond (body : M Response) := prod_map id Some (tryCatch body s) in
  match op with
  | CreateAsset t d ty c h md uuid now =>
      respond (createAsset t d ty c h md uuid now)
  | GetAssetById i => respond (getAssetById i)
  | GetAssetsByCreator c p l => respond (getAssetsByCreator c p l)
  | TransferAsset i f t ty uuid now =>
      respond (transferAsset i f t ty uuid now)
  | UpdateAssetMetadata i c md now => respond (updateAssetMetadata i c md now)
  | RevokeAsset i c now => respond (revokeAsset i c now)
  | DeleteAsset i c now => respond (deleteAsset i c now)
  | TimerFires => (timerFires s, None)
  end.

(** [uuidv4()] returns an identifier that no stored asset has. *)
Definition freshOp (s : State) (op : Op) : bool :=
  match op with
  | CreateAsset _ _ _ _ _ _ uuid _ =>
      bool_decide (assetStorage s !! uuid = None)
  | _ => true
  end.

Fixpoint run (s : State) (ops : list Op) : State :=
  match ops with
  | [] => s
  | op :: rest => run (exec s op).1 rest
  end.

Fixpoint freshRun (s : State) (ops : list Op) : bool :=
  match ops with
  | [] => true
  | op :: rest => freshOp s op && freshRun (exec s op).1 rest
  end.

(** The states the canister can be in: those a run from the initial state
    reaches. *)
Definition reachable (s : State) : Prop :=
  ∃ ops, freshRun init ops = true ∧ run init ops = s.

(** ** Properties and invariants, stated *)

(** The four mutating operations on an existing asset, with the asset
    they address and the actor they name. *)
Definition mutating (op : Op) : option (string * string) :=
  match op with
  | TransferAsset i f _ _ _ _ => Some (i, f)
  | UpdateAssetMetadata i c _ _ | RevokeAsset i c _ | DeleteAsset i c _ =>
      Some (i, c)
  | _ => None
  end.

(** The state after [assetStorage.insert(key, value)]. *)
Definition putAsset (s : State) (key : string) (value : DigitalAsset) : State :=
  (assetStorage_insert key value s).1.

(** Every key of the asset store is the [id] of the asset it holds. *)
Definition storeKeyed (s : State) : Prop :=
  ∀ k a, assetStorage s !! k = Some a → assetId a = k.

(** Invariant I1 of the specification: a stored asset is listed by its
    [creatorId] and by no other creator. *)
Definition indexConsistent (s : State) : Prop :=
  ∀ k a, assetStorage s !! k = Some a →
    ∀ c, assetId a ∈ default [] (creatorAssets s !! c) ↔ c = creatorId a.

(** The record a transfer appends. *)
Definition transferRecord (a : DigitalAsset) (to : string)
    (type : TransferType) (uuid : string) (now : Date) : Transfer :=
  {| transferId := uuid; fromId := creatorId a; toId := to;
     transferDate := now; transferType := type |}.

(** Every id of the creator's index entry is a key of the asset store. *)
Definition allResolve (s : State) (creator : string) : bool :=
  forallb (λ i, bool_decide (is_Some (assetStorage s !! i)))
          (default [] (creatorAssets s !! creator)).

(** [creatorAssets.insert(c, [...entry, k])], with the empty entry for a
    missing one. *)
Definition appendEntry (ix : gmap string (list string)) (c k : string)
    : gmap string (list string) :=
  <[c := default [] (ix !! c) ++ [k]]> ix.

(** What one event writes to the asset store and to the creator index:
    nothing; a new asset and its id at the end of its creator's entry; a
    new version of a stored asset; or a new version with the id moved
    from the creator's entry to the recipient's. *)
Inductive effect (s s' : State) : Prop :=
| effect_none :
    assetStorage s' = assetStorage s →
    creatorAssets s' = creatorAssets s →
    effect s s'
| effect_create uuid a' :
    assetStorage s !! uuid = None →
    assetStorage s' = <[uuid := a']> (assetStorage s) →
    assetId a' = uuid →
    transferHistory a' = [] →
    status a' = ACTIVE →
    creatorAssets s' = appendEntry (creatorAssets s) (creatorId a') uuid →
    effect s s'
| effect_update k a a' :
    assetStorage s !! k = Some a →
    assetStorage s' = <[k := a']> (assetStorage s) →
    assetId a' = k →
    creatorId a' = creatorId a →
    (status a' = ACTIVE → status a = ACTIVE) →
    (transferHistory a' = transferHistory a ∨
     ∃ t, transferType t = LICENSE ∧
          transferHistory a' = transferHistory a ++ [t]) →
    creatorAssets s' = creatorAssets s →
    effect s s'
| effect_move k a a' t old :
    assetStorage s !! k = Some a →
    status a = ACTIVE →
    assetStorage s' = <[k := a']> (assetStorage s) →
    assetId a' = k →
    creatorId a' = creatorId a →
    status a' = TRANSFERRED →
    transferType t = FULL →
    transferHistory a' = transferHistory a ++ [t] →
    creatorAssets s !! creatorId a = Some old →
    creatorAssets s'
      = appendEntry (<[creatorId a := filter (λ j, j ≠ k) old]> (creatorAssets s))
                    (toId t) k →
    effect s s'.

(** The recipient of the last FULL transfer of a history, if any. *)
Definition fullRecipient (h : list Transfer) : option string :=
  last (toId <$> filter (λ t, transferType t = FULL) h).

(** The creator that the index tracks: the recipient of the FULL
    transfer once there is one, the [creatorId] before. *)
Definition holder (a : DigitalAsset) : string :=
  default (creatorId a) (fullRecipient (transferHistory a)).

Record ownerIndexed (s : State) : Prop := {
  listed_by_holder :
    ∀ k a, assetStorage s !! k = Some a →
      ∀ c, k ∈ default [] (creatorAssets s !! c) ↔ c = holder a;
  listed_is_stored :
    ∀ c k, k ∈ default [] (creatorAssets s !! c) →
      is_Some (assetStorage s !! k);
  active_never_moved :
    ∀ k a, assetStorage s !! k = Some a → status a = ACTIVE →
      fullRecipient (transferHistory a) = None
}.

(** ** Scenarios *)

Definition U1 : string := "550e8400-e29b-41d4-a716-446655440000".

Definition U2 : string := "6ba7b810-9dad-41d1-80b4-00c04fd430c8".

Definition zeros64 : string :=
  "0000000000000000000000000000000000000000000000000000000000000000".

Definition png : AssetMetadata :=
  {| fileFormat := Some "PNG"; fileSize := Some 1048576;
     dimensions := Some "3000x2000"; duration := None;
     additionalTags := Some ["art"; "renaissance"; "digital"] |}.

Definition register (uuid : string) : Op :=
  CreateAsset "Mona Lisa Digital" "A digital representation" (Some IMAGE)
    U1 zeros64 (Some png) uuid 1000.

(** The asset that [register "asset-1"] stores. *)
Definition monaLisa : DigitalAsset :=
  {| assetId := "asset-1"; title := "Mona Lisa Digital";
     description := "A digital representation";
     assetType := IMAGE; creatorId := U1; contentHash := zeros64;
     registrationDate := 1000; lastModified := 1000;
     transferHistory := []; status := ACTIVE; metadata := png |}.

(** Scenario A: U1 registers an asset. *)
Definition scenarioA : list Op := [register "asset-1"].

(** Scenario B: then transfers it in full to U2. *)
Definition scenarioB : list Op :=
  scenarioA ++ [TransferAsset "asset-1" U1 U2 FULL "transfer-1" 2000].

(** Scenario C: or licenses it to U2. *)
Definition scenarioC : list Op :=
  scenarioA ++ [TransferAsset "asset-1" U1 U2 LICENSE "transfer-1" 2000].

(** Scenario E: or revokes it. *)
Definition scenarioE : list Op :=
  scenarioA ++ [RevokeAsset "asset-1" U1 3000].

(** Fifteen registrations by U1; the rate limiter lets ten through, so
    the oldest timer fires before the last five. *)
Definition scenarioF : list Op :=
  map register
    ["a01"; "a02"; "a03"; "a04"; "a05"; "a06"; "a07"; "a08"; "a09"; "a10"]
  ++ [TimerFires]
  ++ map register ["a11"; "a12"; "a13"; "a14"; "a15"].

(** What may follow scenario C: a full transfer, a metadata update, a
    revocation, a deletion, and another registration. *)
Definition laterEvents : list Op :=
  [TransferAsset "asset-1" U1 U2 FULL "transfer-2" 3000;
   UpdateAssetMetadata "asset-1" U1
     {| fileFormat := Some "JPEG"; fileSize := None; dimensions := None;
        duration := None; additionalTags := None |} 4000;
   RevokeAsset "asset-1" U1 5000;
   DeleteAsset "asset-1" U1 6000;
   register "asset-2"].

(** An asset whose creator has no index entry: not a reachable state. *)
Definition orphan : State :=
  {| assetStorage :=
       {[ "asset-9" :=
            {| assetId := "asset-9"; title := "t"; description := "d";
               assetType := CODE; creatorId := U1; contentHash := zeros64;
               registrationDate := 0; lastModified := 0;
               transferHistory := []; status := ACTIVE;
               metadata := png |} ]};
     creatorAssets := ∅; rateLimiter := ∅; timers := [] |}.

(** ** Further definitions *)

(** [getCurrentDate]: [ic.time()] is a number of nanoseconds, a [bigint];
    the division of bigints truncates; [Number] of the quotient is exact
    below [2^53]. *)
Definition getCurrentDate (timestampNs : Z) : Date :=
  Z.quot timestampNs 1000000.

(** [rateLimit(userId, 10)] lets the request through. *)
Definition allowed (s : State) (userId : string) : bool :=
  default 0 (rateLimiter s !! userId) <? 10.

(** The registrations that [validateAssetRegistration] does not reject. *)
Definition validRegistration (title creatorId contentHash : string)
    (assetType : option AssetType) (metadata : option AssetMetadata) : bool :=
  negb (bool_decide (title = EmptyString))
  && (Z.of_nat (String.length title) <=? 100)
  && isUuid creatorId && isContentHash contentHash
  && bool_decide (is_Some assetType) && bool_decide (is_Some metadata).

(** The state after [rateLimit] has let a request of [userId] through. *)
Definition counted (s : State) (userId : string) : State :=
  {| assetStorage := assetStorage s;
     creatorAssets := creatorAssets s;
     rateLimiter :=
       <[userId := default 0 (rateLimiter s !! userId) + 1]> (rateLimiter s);
     timers := timers s ++ [(userId, default 0 (rateLimiter s !! userId))] |}.

(** The creator a registration names. *)
Definition registeredBy (op : Op) : option string :=
  match op with
  | CreateAsset _ _ _ c _ _ _ _ => Some c
  | _ => None
  end.

(** The fields of an asset that no handler writes after registration. *)
Definition sameIdentity (a a' : DigitalAsset) : Prop :=
  assetId a' = assetId a ∧ title a' = title a ∧
  description a' = description a ∧ assetType a' = assetType a ∧
  creatorId a' = creatorId a ∧ contentHash a' = contentHash a ∧
  registrationDate a' = registrationDate a.

(** The four ways a handler rewrites a stored asset: a transfer, a
    metadata update, a revocation, a deletion. *)
Inductive assetStep (a a' : DigitalAsset) : Prop :=
| step_transfer t :
    status a = ACTIVE →
    fromId t = creatorId a →
    transferHistory a' = transferHistory a ++ [t] →
    status a'
      = (if bool_decide (transferType t = FULL) then TRANSFERRED else ACTIVE) →
    metadata a' = metadata a →
    assetStep a a'
| step_update patch :
    transferHistory a' = transferHistory a →
    status a' = status a →
    metadata a' = mergeMetadata (metadata a) patch →
    assetStep a a'
| step_revoke :
    status a ≠ REVOKED →
    status a' = REVOKED →
    transferHistory a' = transferHistory a →
    metadata a' = metadata a →
    assetStep a a'
| step_delete :
    status a' = DELETED →
    transferHistory a' = transferHistory a →
    metadata a' = metadata a →
    assetStep a a'.

(** Ten registrations by U1, with no timer fired in between. *)
Definition tenRegistrations : list Op :=
  map register
    ["a01"; "a02"; "a03"; "a04"; "a05"; "a06"; "a07"; "a08"; "a09"; "a10"].

(** The asset of scenario A after scenario B. *)
Definition monaLisaTransferred : DigitalAsset :=
  {| assetId := "asset-1"; title := "Mona Lisa Digital";
     description := "A digital representation";
     assetType := IMAGE; creatorId := U1; contentHash := zeros64;
     registrationDate := 1000; lastModified := 2000;
     transferHistory := [transferRecord monaLisa U2 FULL "transfer-1" 2000];
     status := TRANSFERRED; metadata := png |}.

(** The same asset after scenario C. *)
Definition monaLisaLicensed : DigitalAsset :=
  {| assetId := "asset-1"; title := "Mona Lisa Digital";
     description := "A digital representation";
     assetType := IMAGE; creatorId := U1; contentHash := zeros64;
     registrationDate := 1000; lastModified := 2000;
     transferHistory := [transferRecord monaLisa U2 LICENSE "transfer-1" 2000];
     status := ACTIVE; metadata := png |}.

(** The same asset after scenario E. *)
Definition monaLisaRevoked : DigitalAsset := withStatus monaLisa REVOKED 3000.

(** The index entry of U1 after scenario F. *)
Definition fifteenIds : list string :=
  ["a01"; "a02"; "a03"; "a04"; "a05"; "a06"; "a07"; "a08"; "a09"; "a10";
   "a11"; "a12"; "a13"; "a14"; "a15"].

(** Two metadata patches. *)
Definition jpeg : AssetMetadata :=
  {| fileFormat := Some "JPEG"; fileSize := Some 2097152; dimensions := None;
     duration := None; additionalTags := None |}.

Definition retagged : AssetMetadata :=
  {| fileFormat := None; fileSize := None; dimensions := Some "4000x3000";
     duration := None; additionalTags := Some ["updated"; "high-res"] |}.

(** ** Evaluating handlers *)

Ltac unfold_handler :=
  cbv [exec tryCatch prod_map createAsset getAssetById getAssetsByCreator
       transferAsset updateAssetMetadata revokeAsset deleteAsset putAsset
       isAuthorized assetStorage_get assetStorage_insert creatorAssets_get
       creatorAssets_insert throw mbind mret M_bind M_ret handleError
       negb fst snd id];
  cbn [assetStorage creatorAssets rateLimiter timers].

(** One step: a lookup or a test that the hypotheses decide. *)
Ltac decide_step :=
  match goal with
  | H : ?m !! ?k = _ |- context [?m !! ?k] => rewrite H
  | |- context [bool_decide ?P] =>
      first [ rewrite (bool_decide_eq_true_2 P) by done
            | rewrite (bool_decide_eq_false_2 P) by done ]
  end.

Ltac run_handler := unfold_handler; repeat (decide_step; unfold_handler).

Ltac asset_unchanged a :=
  exists a; split; [done|]; split; [by repeat split|by left].

Ltac asset_rewritten i k a :=
  destruct (decide (i = k)) as [->|];
  [ rewrite lookup_insert_eq; simplify_eq; eexists; split; [done|];
    split; [by repeat split|]; right
  | rewrite lookup_insert_ne by done; asset_unchanged a ].

(** ** Authorization and error paths *)

Lemma mutating_error_no_write s op i actor s' c m :
  mutating op = Some (i, actor) →
  exec s op = (s', Some (JsonError c m)) → s' = s.
Proof.
  intros Hm.
  destruct op; simplify_eq/=; run_handler; cbn;
    repeat (case_match; cbn; simplify_eq); intros; by simplify_eq.
Qed.

(** C3. A mutating operation on an asset id that the store does not hold
    answers 403 Unauthorized, whoever the actor is, and writes nothing:
    [isAuthorized] is false on a missing asset and is asked first, so the
    404 of the lookup that follows is never sent. *)
Theorem absent_asset_is_unauthorized s op i actor :
  mutating op = Some (i, actor) → assetStorage s !! i = None →
  exec s op = (s, Some (JsonError 403 "Unauthorized")).
Proof.
  intros Hm Hnone.
  destruct op; simplify_eq/=; run_handler; reflexivity.
Qed.

Lemma absent_asset_is_unauthorized_witness :
  exec init (RevokeAsset "asset-1" U1 3000)
  = (init, Some (JsonError 403 "Unauthorized")).
Proof.
  apply (absent_asset_is_unauthorized init (RevokeAsset "asset-1" U1 3000)
           "asset-1" U1); reflexivity.
Defined.

(** No mutating operation ever answers 404. *)
Lemma mutating_never_not_found s op i actor m :
  mutating op = Some (i, actor) → (exec s op).2 ≠ Some (JsonError 404 m).
Proof.
  intros Hm. destruct (exec s op) as [s' r] eqn:E. cbn. intros ->.
  revert E.
  destruct op; simplify_eq/=; run_handler; cbn;
    repeat (case_match; cbn; simplify_eq); intros; by simplify_eq.
Qed.

(** C4. A mutating operation on a stored asset by an actor who is not its
    [creatorId] answers 403 Unauthorized and leaves the whole state as it
    was; and whatever error a mutating operation answers, it has written
    nothing before. *)
Theorem unauthorized_leaves_state s op i actor a :
  mutating op = Some (i, actor) →
  assetStorage s !! i = Some a →
  creatorId a ≠ actor →
  exec s op = (s, Some (JsonError 403 "Unauthorized")) ∧
  ∀ s0 s' c m, exec s0 op = (s', Some (JsonError c m)) → s' = s0.
Proof.
  intros Hm Ha Hne. split.
  - destruct op; simplify_eq/=; run_handler; reflexivity.
  - intros s0 s' c m. by apply mutating_error_no_write with i actor.
Qed.

Lemma unauthorized_leaves_state_witness :
  exec (run init scenarioA) (DeleteAsset "asset-1" U2 5000)
  = (run init scenarioA, Some (JsonError 403 "Unauthorized")).
Proof.
  refine (proj1 (unauthorized_leaves_state (run init scenarioA)
                   (DeleteAsset "asset-1" U2 5000) "asset-1" U2
                   _ eq_refl _ _)).
  - vm_compute. reflexivity.
  - vm_compute. discriminate.
Defined.

(** C5. A transfer, full or licence, of a stored asset that is not ACTIVE,
    asked by its creator, answers 400 and leaves the state, and with it
    the transfer history, as it was. *)
Theorem transfer_requires_active s i from to type uuid now a :
  assetStorage s !! i = Some a →
  creatorId a = from →
  status a ≠ ACTIVE →
  exec s (TransferAsset i from to type uuid now)
  = (s, Some (JsonError 400 "Asset is not available for transfer")).
Proof.
  intros Ha Hc Hst. run_handler. reflexivity.
Qed.

Lemma transfer_requires_active_witness :
  exec (run init scenarioB) (TransferAsset "asset-1" U1 U2 LICENSE "transfer-2" 4000)
  = (run init scenarioB,
     Some (JsonError 400 "Asset is not available for transfer")).
Proof.
  eapply transfer_requires_active.
  - vm_compute. reflexivity.
  - reflexivity.
  - discriminate.
Defined.

(** ** Transfers *)

(** C6. A LICENSE transfer of an ACTIVE asset asked by its creator
    succeeds; it appends one Transfer record and sets [lastModified]; the
    status stays ACTIVE, [creatorId] and every other field of the asset
    stay, and the creator index, the rate limiter and the timers are the
    ones of before. *)
Theorem license_transfer_frame s i from to uuid now a :
  assetStorage s !! i = Some a →
  assetId a = i →
  creatorId a = from →
  status a = ACTIVE →
  ∃ s' a',
    exec s (TransferAsset i from to LICENSE uuid now)
      = (s', Some (JsonAsset a')) ∧
    assetStorage s' = <[i := a']> (assetStorage s) ∧
    creatorAssets s' = creatorAssets s ∧
    rateLimiter s' = rateLimiter s ∧ timers s' = timers s ∧
    transferHistory a'
      = transferHistory a ++ [transferRecord a to LICENSE uuid now] ∧
    length (transferHistory a') = S (length (transferHistory a)) ∧
    lastModified a' = now ∧
    status a' = ACTIVE ∧
    creatorId a' = creatorId a ∧
    assetId a' = assetId a ∧ title a' = title a ∧
    description a' = description a ∧ assetType a' = assetType a ∧
    contentHash a' = contentHash a ∧
    registrationDate a' = registrationDate a ∧ metadata a' = metadata a.
Proof.
  intros Ha Hid Hc Hst. do 2 eexists. split.
  - run_handler. rewrite Hid. reflexivity.
  - cbn. rewrite length_app, Nat.add_comm. by repeat split.
Qed.

Lemma license_transfer_frame_witness :
  ∃ s' a',
    exec (run init scenarioA)
         (TransferAsset "asset-1" U1 U2 LICENSE "transfer-1" 2000)
      = (s', Some (JsonAsset a')) ∧
    creatorAssets s' = creatorAssets (run init scenarioA) ∧
    status a' = ACTIVE ∧ creatorId a' = U1 ∧
    length (transferHistory a') = 1%nat.
Proof.
  destruct (license_transfer_frame (run init scenarioA) "asset-1" U1 U2
              "transfer-1" 2000
              monaLisa
              eq_refl eq_refl eq_refl eq_refl)
    as (s' & a' & He & _ & Hix & _ & _ & _ & Hlen & _ & Hst & Hc & _).
  exists s', a'. repeat split; assumption.
Defined.

(** What a FULL transfer of an ACTIVE asset does when its creator asks for
    it and has an index entry: it succeeds, the status becomes
    TRANSFERRED, one Transfer record is appended, and the asset id moves
    from the creator's index entry to the recipient's. The [creatorId] of
    the asset is not written: it is still the one of before. *)
Lemma full_transfer_effect s i from to uuid now a old :
  assetStorage s !! i = Some a →
  assetId a = i →
  creatorId a = from →
  status a = ACTIVE →
  creatorAssets s !! from = Some old →
  to ≠ from →
  ∃ s' a',
    exec s (TransferAsset i from to FULL uuid now)
      = (s', Some (JsonAsset a')) ∧
    assetStorage s' !! i = Some a' ∧
    status a' = TRANSFERRED ∧
    creatorId a' = from ∧
    transferHistory a'
      = transferHistory a ++ [transferRecord a to FULL uuid now] ∧
    (i ∉ default [] (creatorAssets s' !! from)) ∧
    i ∈ default [] (creatorAssets s' !! to).
Proof.
  intros Ha Hid <- Hst Hold Hne.
  assert (Hto : <[creatorId a := filter (λ j, j ≠ assetId a) old]>
                  (creatorAssets s) !! to = creatorAssets s !! to)
    by (by rewrite lookup_insert_ne).
  destruct (creatorAssets s !! to) as [l|] eqn:Hl;
    (do 2 eexists; split; [run_handler; reflexivity|]); cbn;
    rewrite Hid; (split; [apply lookup_insert_eq|]);
    repeat split.
  - rewrite lookup_insert_ne, lookup_insert_eq by done. cbn.
    intros [Hi _]%list_elem_of_filter. by apply Hi.
  - rewrite lookup_insert_eq. cbn. set_solver.
  - rewrite lookup_insert_ne, lookup_insert_eq by done. cbn.
    intros [Hi _]%list_elem_of_filter. by apply Hi.
  - rewrite lookup_insert_eq. cbn. set_solver.
Qed.

(** C1. A FULL transfer of an ACTIVE asset, asked by its creator (who has
    an index entry) for another identifier, succeeds with status
    TRANSFERRED, one more Transfer record and the index entries updated,
    but the [creatorId] of the stored asset is the old creator, not the
    recipient; the recipient is not authorized on the asset
    afterwards, the old creator still is. *)
Theorem full_transfer_keeps_creatorId s i from to uuid now a old :
  assetStorage s !! i = Some a →
  assetId a = i →
  creatorId a = from →
  status a = ACTIVE →
  creatorAssets s !! from = Some old →
  to ≠ from →
  ∃ s' a',
    exec s (TransferAsset i from to FULL uuid now)
      = (s', Some (JsonAsset a')) ∧
    assetStorage s' !! i = Some a' ∧
    status a' = TRANSFERRED ∧
    length (transferHistory a') = S (length (transferHistory a)) ∧
    (i ∉ default [] (creatorAssets s' !! from)) ∧
    i ∈ default [] (creatorAssets s' !! to) ∧
    creatorId a' = from ∧ creatorId a' ≠ to ∧
    isAuthorized i to s' = (s', inr false) ∧
    isAuthorized i from s' = (s', inr true).
Proof.
  intros Ha Hid Hc Hst Hold Hne.
  destruct (full_transfer_effect s i from to uuid now a old)
    as (s' & a' & He & Hs' & Hst' & Hc' & Hh & Hfrom & Hto); try done.
  exists s', a'. repeat split; try done.
  - rewrite Hh, length_app, Nat.add_comm. done.
  - congruence.
  - cbv [isAuthorized assetStorage_get mbind mret M_bind M_ret].
    rewrite Hs'. by rewrite bool_decide_eq_false_2 by congruence.
  - cbv [isAuthorized assetStorage_get mbind mret M_bind M_ret].
    rewrite Hs'. by rewrite bool_decide_eq_true_2 by congruence.
Qed.

Lemma full_transfer_keeps_creatorId_witness :
  ∃ s' a',
    exec (run init scenarioA)
         (TransferAsset "asset-1" U1 U2 FULL "transfer-1" 2000)
      = (s', Some (JsonAsset a')) ∧
    assetStorage s' !! "asset-1" = Some a' ∧
    status a' = TRANSFERRED ∧ creatorId a' = U1 ∧ creatorId a' ≠ U2.
Proof.
  destruct (full_transfer_keeps_creatorId (run init scenarioA) "asset-1" U1 U2
              "transfer-1" 2000
              monaLisa
              ["asset-1"] eq_refl eq_refl eq_refl eq_refl eq_refl)
    as (s' & a' & He & Hs' & Hst & _ & _ & _ & Hc & Hne & _).
  - discriminate.
  - exists s', a'. repeat split; assumption.
Defined.

(** C10. In a FULL transfer of an ACTIVE asset asked by its creator, the
    creator's index entry is read without a presence check. Where the
    entry exists, which invariant I1 implies, the transfer succeeds and
    no 500 is sent; where it is absent, reading [.filter] throws, the
    answer is a 500 and nothing has been written. *)
Theorem full_transfer_index_read s i from to uuid now a :
  assetStorage s !! i = Some a →
  creatorId a = from →
  status a = ACTIVE →
  match creatorAssets s !! from with
  | Some old =>
      ∃ s' a', exec s (TransferAsset i from to FULL uuid now)
               = (s', Some (JsonAsset a'))
  | None =>
      exec s (TransferAsset i from to FULL uuid now)
      = (s, Some (JsonError 500 undefinedFilter))
  end.
Proof.
  intros Ha <- Hst.
  destruct (creatorAssets s !! creatorId a) as [old|] eqn:Hold.
  - destruct (<[creatorId a := filter (λ j, j ≠ assetId a) old]>
                (creatorAssets s) !! to) as [l|] eqn:Hl;
      do 2 eexists; run_handler; reflexivity.
  - run_handler. reflexivity.
Qed.

Lemma full_transfer_index_read_witness :
  exec orphan (TransferAsset "asset-9" U1 U2 FULL "transfer-1" 2000)
  = (orphan, Some (JsonError 500 undefinedFilter)).
Proof.
  exact (full_transfer_index_read orphan "asset-9" U1 U2 "transfer-1" 2000
           {| assetId := "asset-9"; title := "t"; description := "d";
              assetType := CODE; creatorId := U1; contentHash := zeros64;
              registrationDate := 0; lastModified := 0;
              transferHistory := []; status := ACTIVE; metadata := png |}
           eq_refl eq_refl eq_refl).
Defined.

(** Invariant I1 gives the entry that the FULL transfer reads. *)
Lemma indexConsistent_entry s i a :
  indexConsistent s → assetStorage s !! i = Some a →
  ∃ old, creatorAssets s !! creatorId a = Some old ∧ assetId a ∈ old.
Proof.
  intros Hix Ha.
  pose proof (proj2 (Hix i a Ha (creatorId a)) eq_refl) as Hin.
  destruct (creatorAssets s !! creatorId a) as [old|]; [by exists old|].
  cbn in Hin. set_solver.
Qed.

(** ** Revoke and delete *)

(** C9. On a stored asset and asked by its creator: RevokeAsset answers
    400 "already revoked", writing nothing, exactly when the status is
    REVOKED, and otherwise stores the asset with status REVOKED;
    DeleteAsset succeeds whatever the status, DELETED included, and stores
    the asset with status DELETED. *)
Theorem revoke_delete_asymmetry s i creator now a :
  assetStorage s !! i = Some a →
  assetId a = i →
  creatorId a = creator →
  exec s (RevokeAsset i creator now)
    = (if bool_decide (status a = REVOKED)
       then (s, Some (JsonError 400 "Asset is already revoked"))
       else (putAsset s i (withStatus a REVOKED now),
             Some (JsonAsset (withStatus a REVOKED now)))) ∧
  ((∃ m, (exec s (RevokeAsset i creator now)).2 = Some (JsonError 400 m))
   ↔ status a = REVOKED) ∧
  exec s (DeleteAsset i creator now)
    = (putAsset s i (withStatus a DELETED now),
       Some (JsonMessage "Asset deleted successfully")) ∧
  assetStorage (exec s (DeleteAsset i creator now)).1 !! i
    = Some (withStatus a DELETED now) ∧
  status (withStatus a DELETED now) = DELETED.
Proof.
  intros Ha Hid Hc.
  assert (Hrev : exec s (RevokeAsset i creator now)
    = (if bool_decide (status a = REVOKED)
       then (s, Some (JsonError 400 "Asset is already revoked"))
       else (putAsset s i (withStatus a REVOKED now),
             Some (JsonAsset (withStatus a REVOKED now))))).
  { case_bool_decide; run_handler; rewrite ?Hid; reflexivity. }
  assert (Hdel : exec s (DeleteAsset i creator now)
    = (putAsset s i (withStatus a DELETED now),
       Some (JsonMessage "Asset deleted successfully"))).
  { run_handler. rewrite Hid. reflexivity. }
  split; [exact Hrev|]. split; [|split; [exact Hdel|split; [|done]]].
  - rewrite Hrev. case_bool_decide; cbn; split; try done.
    + by eexists.
    + by intros [m ?].
  - rewrite Hdel. cbn. apply lookup_insert_eq.
Qed.

Lemma revoke_delete_asymmetry_witness :
  exec (run init scenarioE) (RevokeAsset "asset-1" U1 4000)
    = (run init scenarioE, Some (JsonError 400 "Asset is already revoked")).
Proof.
  exact (proj1 (revoke_delete_asymmetry (run init scenarioE) "asset-1" U1 4000
           {| assetId := "asset-1"; title := "Mona Lisa Digital";
              description := "A digital representation";
              assetType := IMAGE; creatorId := U1; contentHash := zeros64;
              registrationDate := 1000; lastModified := 3000;
              transferHistory := []; status := REVOKED; metadata := png |}
           eq_refl eq_refl eq_refl)).
Defined.

(** ** Pagination *)

Lemma resolveAssets_eq ids s :
  resolveAssets ids s = (s, inr (omap (λ i, assetStorage s !! i) ids)).
Proof.
  induction ids as [|i rest IH]; [reflexivity|].
  cbn [resolveAssets]. cbv [mbind M_bind assetStorage_get mret M_ret].
  rewrite IH. cbn. by destruct (assetStorage s !! i).
Qed.

Lemma omap_resolved_length (s : State) (ids : list string) :
  Forall (λ i, is_Some (assetStorage s !! i)) ids →
  length (omap (λ i, assetStorage s !! i) ids) = length ids.
Proof.
  induction 1 as [|i rest [a Ha] _ IH]; [reflexivity|].
  cbn. rewrite Ha. cbn. by rewrite IH.
Qed.

Lemma slice_sublist {A} (l : list A) (start end_ : Z) :
  slice l start end_ ⊆ l.
Proof.
  unfold slice. intros x Hx.
  apply (subseteq_drop (Z.to_nat
    (if start <? 0 then Z.max (Z.of_nat (length l) + start) 0
     else Z.min start (Z.of_nat (length l))))).
  eapply subseteq_take, Hx.
Qed.

Lemma slice_page_length {A} (l : list A) (page limit : Z) :
  1 ≤ page → 1 ≤ limit →
  Z.of_nat (length (slice l ((page - 1) * limit) (page * limit)))
  = Z.min limit (Z.max 0 (Z.of_nat (length l) - (page - 1) * limit)).
Proof.
  intros Hp Hl. unfold slice.
  assert (0 ≤ (page - 1) * limit) by nia.
  assert (page * limit = (page - 1) * limit + limit) as -> by lia.
  destruct (Z.ltb_spec ((page - 1) * limit) 0); [lia|].
  destruct (Z.ltb_spec ((page - 1) * limit + limit) 0); [lia|].
  rewrite length_take, length_drop. lia.
Qed.

(** C7. With [page] and [limit] at least 1 and every id of the creator's
    entry in the asset store, the listing answers
    [min(limit, max(0, total - (page-1)*limit))] assets and the length of
    the whole entry as [total], with [page] and [limit] as asked; a
    creator without an entry gets no asset and [total] 0, not an error.
    The state is not written. *)
Theorem pagination_correct s creator page limit :
  1 ≤ page → 1 ≤ limit →
  allResolve s creator = true →
  match creatorAssets s !! creator with
  | None =>
      exec s (GetAssetsByCreator creator (Some page) (Some limit))
      = (s, Some (JsonPage [] 0 page limit))
  | Some allAssets =>
      ∃ assets,
        exec s (GetAssetsByCreator creator (Some page) (Some limit))
        = (s, Some (JsonPage assets (Z.of_nat (length allAssets)) page limit)) ∧
        Z.of_nat (length assets)
        = Z.min limit
            (Z.max 0 (Z.of_nat (length allAssets) - (page - 1) * limit))
  end.
Proof.
  intros Hp Hl Hres. unfold allResolve in Hres.
  assert (Hpage : orDefault (Some page) 1 = page).
  { cbn. destruct (Z.eqb_spec page 0); [lia|done]. }
  assert (Hlimit : orDefault (Some limit) 10 = limit).
  { cbn. destruct (Z.eqb_spec limit 0); [lia|done]. }
  destruct (creatorAssets s !! creator) as [allAssets|] eqn:Hall.
  - eexists. split.
    + unfold_handler. rewrite Hall, Hpage, Hlimit. unfold_handler.
      rewrite resolveAssets_eq. reflexivity.
    + rewrite omap_resolved_length.
      * by apply slice_page_length.
      * cbn in Hres. rewrite forallb_forall in Hres.
        apply Forall_forall. intros i Hi%slice_sublist.
        apply list_elem_of_In, Hres in Hi. by apply bool_decide_eq_true in Hi.
  - unfold_handler. rewrite Hall, Hpage, Hlimit. reflexivity.
Qed.

(** A creator without an entry gets the empty page whatever the query. *)
Lemma unknown_creator_empty_page s creator queryPage queryLimit :
  creatorAssets s !! creator = None →
  exec s (GetAssetsByCreator creator queryPage queryLimit)
  = (s, Some (JsonPage [] 0 (orDefault queryPage 1) (orDefault queryLimit 10))).
Proof. intros Hnone. run_handler. reflexivity. Qed.

Lemma pagination_correct_witness :
  ∃ assets,
    exec (run init scenarioF) (GetAssetsByCreator U1 (Some 2) (Some 10))
    = (run init scenarioF, Some (JsonPage assets 15 2 10)) ∧
    Z.of_nat (length assets) = 5.
Proof.
  exact (pagination_correct (run init scenarioF) U1 2 10
           ltac:(lia) ltac:(lia) ltac:(vm_compute; reflexivity)).
Defined.

(** ** What one event writes, proved *)

Lemma exec_effect s op :
  storeKeyed s → freshOp s op = true → effect s (exec s op).1.
Proof.
  intros Hkey Hfresh. destruct op as
    [t d ty c h md uuid now|i|c p l|i from to type uuid now
    |i c patch now|i c now|i c now|].
  - cbn in Hfresh. apply bool_decide_eq_true in Hfresh.
    unfold_handler. cbv [rateLimit validateAssetRegistration throw mret M_ret].
    repeat (case_match; cbn; simplify_eq); try (by apply effect_none).
    all: eapply effect_create; cbn; try done.
    all: unfold appendEntry; cbn in *;
      by match goal with H : creatorAssets _ !! _ = _ |- _ => rewrite H end.
  - unfold_handler. destruct (assetStorage s !! i); by apply effect_none.
  - unfold_handler. destruct (creatorAssets s !! c); [|by apply effect_none].
    unfold_handler. rewrite resolveAssets_eq. by apply effect_none.
  - destruct (assetStorage s !! i) as [a|] eqn:Ha;
      [|run_handler; by apply effect_none].
    pose proof (Hkey _ _ Ha) as Hid.
    destruct (decide (creatorId a = from)) as [Hc|Hc];
      [|run_handler; by apply effect_none].
    destruct (decide (status a = ACTIVE)) as [Hst|Hst];
      [|run_handler; by apply effect_none].
    destruct type.
    + destruct (creatorAssets s !! creatorId a) as [old|] eqn:Hold;
        [|run_handler; by apply effect_none].
      set (ix1 := <[creatorId a := filter (λ j, j ≠ i) old]> (creatorAssets s)).
      destruct (ix1 !! to) as [l|] eqn:Hl; subst ix1;
        run_handler; rewrite Hid; unfold_handler; rewrite Hl; unfold_handler;
        (eapply (effect_move _ _ i a _ (transferRecord a to FULL uuid now) old);
         cbn; try done; unfold appendEntry; cbn; by rewrite Hl).
    + run_handler. rewrite Hid.
      eapply (effect_update _ _ i a); cbn; try done.
      right. by eexists (transferRecord a to LICENSE uuid now).
  - destruct (assetStorage s !! i) as [a|] eqn:Ha;
      [|run_handler; by apply effect_none].
    pose proof (Hkey _ _ Ha) as Hid.
    destruct (decide (creatorId a = c)) as [Hc|Hc];
      [|run_handler; by apply effect_none].
    run_handler. rewrite Hid.
    eapply (effect_update _ _ i a); cbn; try done. by left.
  - destruct (assetStorage s !! i) as [a|] eqn:Ha;
      [|run_handler; by apply effect_none].
    pose proof (Hkey _ _ Ha) as Hid.
    destruct (decide (creatorId a = c)) as [Hc|Hc];
      [|run_handler; by apply effect_none].
    destruct (decide (status a = REVOKED)) as [Hst|Hst];
      [run_handler; by apply effect_none|].
    run_handler. rewrite Hid.
    eapply (effect_update _ _ i a); cbn; try done. by left.
  - destruct (assetStorage s !! i) as [a|] eqn:Ha;
      [|run_handler; by apply effect_none].
    pose proof (Hkey _ _ Ha) as Hid.
    destruct (decide (creatorId a = c)) as [Hc|Hc];
      [|run_handler; by apply effect_none].
    run_handler. rewrite Hid.
    eapply (effect_update _ _ i a); cbn; try done. by left.
  - cbn. unfold timerFires. destruct (timers s) as [|[u n] rest];
      by apply effect_none.
Qed.

Lemma effect_storeKeyed s s' : effect s s' → storeKeyed s → storeKeyed s'.
Proof.
  intros [Hst _|uuid a' _ Hst Hid _ _ _|k a a' _ Hst Hid _ _ _ _
         |k a a' t old _ _ Hst Hid _ _ _ _ _ _] Hkey j b;
    rewrite Hst; [apply Hkey|..];
    (destruct (decide (j = uuid)) as [->|] || destruct (decide (j = k)) as [->|]);
    rewrite ?lookup_insert_eq, ?lookup_insert_ne by done;
    first [by intros [= <-] | apply Hkey].
Qed.

Lemma run_storeKeyed s ops :
  storeKeyed s → freshRun s ops = true → storeKeyed (run s ops).
Proof.
  revert s. induction ops as [|op rest IH]; intros s Hkey Hfresh; [done|].
  cbn in Hfresh. apply andb_prop in Hfresh as [Hop Hrest].
  cbn. apply IH; [|done]. eapply effect_storeKeyed; [|done].
  by apply exec_effect.
Qed.

Lemma run_app s ops1 ops2 : run s (ops1 ++ ops2) = run (run s ops1) ops2.
Proof. revert s. induction ops1 as [|op rest IH]; intros s; cbn; auto. Qed.

Lemma freshRun_app s ops1 ops2 :
  freshRun s (ops1 ++ ops2)
  = freshRun s ops1 && freshRun (run s ops1) ops2.
Proof.
  revert s. induction ops1 as [|op rest IH]; intros s; cbn; [done|].
  by rewrite IH, andb_assoc.
Qed.

Lemma init_storeKeyed : storeKeyed init.
Proof. intros k a. cbn. by rewrite lookup_empty. Qed.

Lemma reachable_storeKeyed s : reachable s → storeKeyed s.
Proof.
  intros (ops & Hfresh & <-). apply run_storeKeyed; [apply init_storeKeyed|done].
Qed.

Lemma reachable_run s ops :
  reachable s → freshRun s ops = true → reachable (run s ops).
Proof.
  intros (ops0 & Hfresh0 & <-) Hfresh. exists (ops0 ++ ops). split.
  - rewrite freshRun_app, Hfresh0. done.
  - apply run_app.
Qed.

(** An invariant of the events is an invariant of the reachable states. *)
Lemma reachable_invariant (P : State → Prop) :
  P init →
  (∀ s s', storeKeyed s → P s → effect s s' → P s') →
  ∀ s, reachable s → P s.
Proof.
  intros Hinit Hstep s (ops & Hfresh & <-).
  assert (Hgen : ∀ s0, storeKeyed s0 → P s0 → freshRun s0 ops = true →
                       P (run s0 ops)).
  { clear Hfresh. induction ops as [|op rest IH]; intros s0 Hkey HP Hfresh;
      [done|].
    cbn in Hfresh. apply andb_prop in Hfresh as [Hop Hrest].
    pose proof (exec_effect s0 op Hkey Hop) as Heff.
    cbn. apply IH; [by eapply effect_storeKeyed|by eapply Hstep|done]. }
  apply Hgen; [apply init_storeKeyed|done|done].
Qed.

(** One event keeps every stored asset, its [creatorId], and the
    transfer records it had, in their positions. *)
Lemma effect_history s s' k a :
  effect s s' → assetStorage s !! k = Some a →
  ∃ a', assetStorage s' !! k = Some a' ∧
        creatorId a' = creatorId a ∧
        transferHistory a `prefix_of` transferHistory a'.
Proof.
  intros [Hst _|uuid a' Hnew Hst _ _ _ _|j b b' Hb Hst _ Hc _ Hh _
         |j b b' t old Hb _ Hst _ Hc _ _ Hh _ _] Ha; rewrite Hst.
  - by exists a.
  - exists a. rewrite lookup_insert_ne by congruence. done.
  - destruct (decide (j = k)) as [->|Hne].
    + exists b'. rewrite lookup_insert_eq. simplify_eq.
      split; [done|]. split; [done|].
      destruct Hh as [->|(t & _ & ->)]; [done|by apply prefix_app_r].
    + exists a. by rewrite lookup_insert_ne.
  - destruct (decide (j = k)) as [->|Hne].
    + exists b'. rewrite lookup_insert_eq. simplify_eq.
      split; [done|]. split; [done|]. rewrite Hh. by apply prefix_app_r.
    + exists a. by rewrite lookup_insert_ne.
Qed.

Lemma run_history s ops k a :
  storeKeyed s → freshRun s ops = true → assetStorage s !! k = Some a →
  ∃ a', assetStorage (run s ops) !! k = Some a' ∧
        creatorId a' = creatorId a ∧
        transferHistory a `prefix_of` transferHistory a'.
Proof.
  revert s a. induction ops as [|op rest IH]; intros s a Hkey Hfresh Ha.
  - by exists a.
  - cbn in Hfresh. apply andb_prop in Hfresh as [Hop Hrest].
    pose proof (exec_effect s op Hkey Hop) as Heff.
    destruct (effect_history s _ k a Heff Ha) as (a1 & Ha1 & Hc1 & Hp1).
    destruct (IH _ a1 (effect_storeKeyed _ _ Heff Hkey) Hrest Ha1)
      as (a' & Ha' & Hc' & Hp').
    exists a'. split; [done|]. split; [congruence|by etrans].
Qed.

(** C8. From a reachable state, along any run in which [uuidv4] returns
    fresh identifiers, an asset of the store stays in the store, its
    transfer history does not get shorter, and every Transfer record it
    had is still at its position, unchanged. *)
Theorem history_monotone s ops k a :
  reachable s →
  freshRun s ops = true →
  assetStorage s !! k = Some a →
  ∃ a', assetStorage (run s ops) !! k = Some a' ∧
        (length (transferHistory a) ≤ length (transferHistory a'))%nat ∧
        ∀ n t, transferHistory a !! n = Some t →
               transferHistory a' !! n = Some t.
Proof.
  intros Hr Hfresh Ha.
  destruct (run_history s ops k a (reachable_storeKeyed s Hr) Hfresh Ha)
    as (a' & Ha' & _ & Hp).
  exists a'. split; [done|]. split.
  - by apply prefix_length.
  - intros n t Hn. by eapply prefix_lookup_Some.
Qed.

Lemma history_monotone_witness :
  ∃ a', assetStorage (run (run init scenarioC) laterEvents) !! "asset-1"
        = Some a' ∧
        (1 ≤ length (transferHistory a'))%nat ∧
        ∀ n t,
          [transferRecord monaLisa U2 LICENSE "transfer-1" 2000] !! n = Some t →
          transferHistory a' !! n = Some t.
Proof.
  refine (history_monotone (run init scenarioC) laterEvents "asset-1"
            {| assetId := "asset-1"; title := "Mona Lisa Digital";
               description := "A digital representation";
               assetType := IMAGE; creatorId := U1; contentHash := zeros64;
               registrationDate := 1000; lastModified := 2000;
               transferHistory :=
                 [transferRecord monaLisa U2 LICENSE "transfer-1" 2000];
               status := ACTIVE; metadata := png |}
            _ eq_refl eq_refl).
  exists scenarioC. split; reflexivity.
Defined.

(** ** The index and the holder *)

Lemma fullRecipient_license h t :
  transferType t = LICENSE → fullRecipient (h ++ [t]) = fullRecipient h.
Proof.
  intros Ht. unfold fullRecipient. rewrite filter_app, filter_cons_False.
  - by rewrite filter_nil, app_nil_r.
  - by rewrite Ht.
Qed.

Lemma fullRecipient_full h t :
  transferType t = FULL → fullRecipient (h ++ [t]) = Some (toId t).
Proof.
  intros Ht. unfold fullRecipient.
  rewrite filter_app, filter_cons_True, filter_nil by done.
  rewrite fmap_app. change (toId <$> [t]) with [toId t]. apply last_snoc.
Qed.

Lemma elem_of_appendEntry ix c k c' j :
  j ∈ default [] (appendEntry ix c k !! c')
  ↔ j ∈ default [] (ix !! c') ∨ (c' = c ∧ j = k).
Proof.
  unfold appendEntry. destruct (decide (c = c')) as [->|Hne].
  - rewrite lookup_insert_eq. cbn. rewrite elem_of_app, list_elem_of_singleton.
    intuition congruence.
  - rewrite lookup_insert_ne by done. intuition congruence.
Qed.

Lemma elem_of_filterEntry (ix : gmap string (list string)) c k old c' j :
  ix !! c = Some old →
  j ∈ default [] (<[c := filter (λ i, i ≠ k) old]> ix !! c')
  ↔ j ∈ default [] (ix !! c') ∧ ¬ (c' = c ∧ j = k).
Proof.
  intros Hold. destruct (decide (c = c')) as [->|Hne].
  - rewrite lookup_insert_eq, Hold. cbn. rewrite list_elem_of_filter.
    intuition congruence.
  - rewrite lookup_insert_ne by done. intuition congruence.
Qed.

Lemma init_ownerIndexed : ownerIndexed init.
Proof.
  split; cbn.
  - intros k a. by rewrite lookup_empty.
  - intros c k. rewrite lookup_empty. cbn. by intros ?%elem_of_nil.
  - intros k a. by rewrite lookup_empty.
Qed.

Lemma effect_ownerIndexed s s' :
  storeKeyed s → ownerIndexed s → effect s s' → ownerIndexed s'.
Proof.
  intros Hkey [Hlist Hstored Hact]
    [Hst Hix|uuid a' Hnew Hst Hid Hh Hstat Hix
    |k a a' Ha Hst Hid Hc Hstat Hh Hix
    |k a a' t old Ha Hstat Hst Hid Hc Hstat' Ht Hh Hold Hix].
  - split; rewrite ?Hst, ?Hix; done.
  - split.
    + intros j b Hb c. rewrite Hix, elem_of_appendEntry.
      rewrite Hst in Hb. destruct (decide (uuid = j)) as [->|Hne].
      * rewrite lookup_insert_eq in Hb. simplify_eq.
        unfold holder. rewrite Hh. cbn. split; [|intuition congruence].
        intros [Hin|[-> _]]; [|done].
        apply Hstored in Hin as [? ?]. congruence.
      * rewrite lookup_insert_ne in Hb by done.
        rewrite (Hlist j b Hb c). intuition congruence.
    + intros c j. rewrite Hix, elem_of_appendEntry, Hst.
      intros [Hin|[_ ->]].
      * apply Hstored in Hin. destruct (decide (uuid = j)) as [->|Hne].
        -- rewrite lookup_insert_eq. by eexists.
        -- by rewrite lookup_insert_ne.
      * rewrite lookup_insert_eq. by eexists.
    + intros j b. rewrite Hst. destruct (decide (uuid = j)) as [->|Hne].
      * rewrite lookup_insert_eq. intros [= <-] _. by rewrite Hh.
      * rewrite lookup_insert_ne by done. apply Hact.
  - assert (Hrec : fullRecipient (transferHistory a')
                   = fullRecipient (transferHistory a)).
    { destruct Hh as [->|(t & Ht & ->)]; [done|by apply fullRecipient_license]. }
    split.
    + intros j b Hb c. rewrite Hix. rewrite Hst in Hb.
      destruct (decide (k = j)) as [->|Hne].
      * rewrite lookup_insert_eq in Hb. simplify_eq.
        rewrite (Hlist _ a Ha c). unfold holder. by rewrite Hrec, Hc.
      * rewrite lookup_insert_ne in Hb by done. by apply Hlist.
    + intros c j. rewrite Hix, Hst. intros Hin%Hstored.
      destruct (decide (k = j)) as [->|Hne].
      * rewrite lookup_insert_eq. by eexists.
      * by rewrite lookup_insert_ne.
    + intros j b. rewrite Hst. destruct (decide (k = j)) as [->|Hne].
      * rewrite lookup_insert_eq. intros [= <-] Hs. rewrite Hrec.
        by apply (Hact _ a Ha), Hstat.
      * rewrite lookup_insert_ne by done. apply Hact.
  - assert (Hholder : holder a = creatorId a).
    { unfold holder. by rewrite (Hact _ a Ha Hstat). }
    assert (Hholder' : holder a' = toId t).
    { unfold holder. by rewrite Hh, fullRecipient_full. }
    split.
    + intros j b Hb c.
      rewrite Hix, elem_of_appendEntry, (elem_of_filterEntry _ _ _ old) by done.
      rewrite Hst in Hb. destruct (decide (k = j)) as [->|Hne].
      * rewrite lookup_insert_eq in Hb. simplify_eq.
        rewrite (Hlist _ a Ha c), Hholder, Hholder'. intuition congruence.
      * rewrite lookup_insert_ne in Hb by done.
        rewrite (Hlist j b Hb c). intuition congruence.
    + intros c j.
      rewrite Hix, elem_of_appendEntry, (elem_of_filterEntry _ _ _ old), Hst
        by done.
      intros [[Hin%Hstored _]|[_ ->]].
      * destruct (decide (k = j)) as [->|Hne].
        -- rewrite lookup_insert_eq. by eexists.
        -- by rewrite lookup_insert_ne.
      * rewrite lookup_insert_eq. by eexists.
    + intros j b. rewrite Hst. destruct (decide (k = j)) as [->|Hne].
      * rewrite lookup_insert_eq. intros [= <-] Hs. congruence.
      * rewrite lookup_insert_ne by done. apply Hact.
Qed.

(** In every reachable state the index lists each stored asset under its
    holder and under no other creator, lists stored assets only, and no
    ACTIVE asset has a FULL transfer in its history. *)
Lemma reachable_ownerIndexed s : reachable s → ownerIndexed s.
Proof.
  apply reachable_invariant; [apply init_ownerIndexed|].
  intros s0 s' Hkey HP Heff. by eapply effect_ownerIndexed.
Qed.

(** Invariant I1 holds of a reachable state exactly when every stored
    asset is held by its [creatorId]. *)
Lemma reachable_indexConsistent_iff s :
  reachable s →
  indexConsistent s
  ↔ ∀ k a, assetStorage s !! k = Some a → holder a = creatorId a.
Proof.
  intros Hr. pose proof (reachable_storeKeyed s Hr) as Hkey.
  destruct (reachable_ownerIndexed s Hr) as [Hlist _ _]. split.
  - intros Hcons k a Ha.
    pose proof (proj2 (Hcons k a Ha (creatorId a)) eq_refl) as Hin.
    rewrite (Hkey k a Ha) in Hin. symmetry. by apply (Hlist k a Ha).
  - intros Hhold k a Ha c. rewrite (Hkey k a Ha), (Hlist k a Ha c).
    by rewrite (Hhold k a Ha).
Qed.

(** In a reachable state no event is answered with a 500. *)
Lemma reachable_never_500 s op m :
  reachable s → (exec s op).2 ≠ Some (JsonError 500 m).
Proof.
  intros Hr. pose proof (reachable_storeKeyed s Hr) as Hkey.
  destruct (reachable_ownerIndexed s Hr) as [Hlist _ Hact].
  destruct (exec s op) as [s' r] eqn:E. cbn. intros ->. revert E.
  destruct op as
    [t d ty c h md uuid now|i|c p l|i from to type uuid now
    |i c patch now|i c now|i c now|].
  - unfold_handler. cbv [rateLimit validateAssetRegistration throw mret M_ret].
    repeat (case_match; cbn; simplify_eq); intros; by simplify_eq.
  - unfold_handler. destruct (assetStorage s !! i); intros; by simplify_eq.
  - unfold_handler. destruct (creatorAssets s !! c); [|intros; by simplify_eq].
    unfold_handler. rewrite resolveAssets_eq. intros; by simplify_eq.
  - destruct (assetStorage s !! i) as [a|] eqn:Ha;
      [|run_handler; intros; by simplify_eq].
    destruct (decide (creatorId a = from)) as [Hc|Hc];
      [|run_handler; intros; by simplify_eq].
    destruct (decide (status a = ACTIVE)) as [Hst|Hst];
      [|run_handler; intros; by simplify_eq].
    destruct type; [|run_handler; intros; by simplify_eq].
    assert (Hin : i ∈ default [] (creatorAssets s !! creatorId a)).
    { apply (Hlist i a Ha). unfold holder. by rewrite (Hact i a Ha Hst). }
    destruct (creatorAssets s !! creatorId a) as [old|] eqn:Hold;
      [|by apply elem_of_nil in Hin].
    destruct (<[creatorId a := filter (λ j, j ≠ assetId a) old]>
                (creatorAssets s) !! to) as [l|] eqn:Hl;
      run_handler; intros; by simplify_eq.
  - unfold_handler. cbn; repeat (case_match; cbn; simplify_eq);
      intros; by simplify_eq.
  - unfold_handler. cbn; repeat (case_match; cbn; simplify_eq);
      intros; by simplify_eq.
  - unfold_handler. cbn; repeat (case_match; cbn; simplify_eq);
      intros; by simplify_eq.
  - cbn. intros; by simplify_eq.
Qed.

(** C2. Invariant I1 does not survive a FULL transfer. After scenario B
    (U1 registers an asset and transfers it in full to U2, with fresh
    identifiers) the stored asset still has [creatorId] U1, the entry of
    U1 is empty and the entry of U2 lists the asset. *)
Theorem full_transfer_breaks_index_consistency :
  freshRun init scenarioB = true ∧
  (∃ a, assetStorage (run init scenarioB) !! "asset-1" = Some a ∧
        assetId a = "asset-1" ∧ creatorId a = U1 ∧ holder a = U2) ∧
  creatorAssets (run init scenarioB) !! U1 = Some [] ∧
  creatorAssets (run init scenarioB) !! U2 = Some ["asset-1"] ∧
  ¬ indexConsistent (run init scenarioB).
Proof.
  split; [reflexivity|]. split; [eexists; by repeat split|].
  split; [reflexivity|]. split; [reflexivity|].
  intros Hcons.
  assert (Hin : "asset-1" ∈ default [] (creatorAssets (run init scenarioB) !! U1)).
  { by apply (Hcons "asset-1" _ eq_refl U1). }
  by apply elem_of_nil in Hin.
Qed.

(** ** Registration and the rate limiter *)

Lemma reachable_scenarioA : reachable (run init scenarioA).
Proof. exists scenarioA. split; reflexivity. Defined.

Lemma reachable_scenarioB : reachable (run init scenarioB).
Proof. exists scenarioB. split; reflexivity. Defined.

Lemma reachable_scenarioC : reachable (run init scenarioC).
Proof. exists scenarioC. split; reflexivity. Defined.

Lemma reachable_scenarioE : reachable (run init scenarioE).
Proof. exists scenarioE. split; reflexivity. Defined.

Lemma reachable_scenarioF : reachable (run init scenarioF).
Proof. exists scenarioF. split; vm_compute; reflexivity. Defined.

Lemma rateLimit_eq s u :
  rateLimit u 10 s = if allowed s u then (counted s u, inr true) else (s, inr false).
Proof.
  unfold rateLimit, allowed, counted.
  destruct (Z.leb_spec 10 (default 0 (rateLimiter s !! u)));
    destruct (Z.ltb_spec (default 0 (rateLimiter s !! u)) 10); try lia; done.
Qed.

Lemma validate_eq t c h ty md s :
  validRegistration t c h ty md = true →
  ∃ ty' md', ty = Some ty' ∧ md = Some md' ∧
    validateAssetRegistration t c h ty md s = (s, inr (ty', md')).
Proof.
  unfold validRegistration, validateAssetRegistration.
  rewrite !andb_true_iff, negb_true_iff, !bool_decide_eq_true, Z.leb_le.
  intros [[[[[Ht Hlen] Hu] Hh] [ty' ->]] [md' ->]].
  exists ty', md'. rewrite Ht, Hu, Hh. cbn.
  destruct (Z.ltb_spec 100 (Z.of_nat (String.length t))); [lia|].
  assert (c ≠ EmptyString) by (intros ->; done).
  assert (h ≠ EmptyString) by (intros ->; done).
  rewrite !bool_decide_eq_false_2 by done. done.
Qed.

Lemma validate_invalid t c h ty md s :
  validRegistration t c h ty md = false →
  ∃ m, validateAssetRegistration t c h ty md s = (s, inl (AppError m 400)).
Proof.
  unfold validRegistration, validateAssetRegistration, throw. intros Hv.
  destruct (bool_decide (t = EmptyString)) eqn:E1; cbn [orb negb andb]; [by eexists|].
  destruct (Z.ltb_spec 100 (Z.of_nat (String.length t))) as [E2|E2]; cbn [orb negb andb];
    [by eexists|].
  destruct (bool_decide (c = EmptyString)) eqn:E3; cbn [orb negb andb]; [by eexists|].
  destruct (isUuid c) eqn:E4; cbn [orb negb andb]; [|by eexists].
  destruct (bool_decide (h = EmptyString)) eqn:E5; cbn [orb negb andb]; [by eexists|].
  destruct (isContentHash h) eqn:E6; cbn [orb negb andb]; [|by eexists].
  destruct ty as [ty'|]; [|by eexists]. destruct md as [md'|]; [|by eexists].
  exfalso. revert Hv. cbn [orb negb andb].
  destruct (Z.leb_spec (Z.of_nat (String.length t)) 100); [|lia].
  rewrite !bool_decide_eq_true_2 by (by eexists). done.
Qed.

Lemma createAsset_run t d ty c h md uuid now s :
  tryCatch (createAsset t d ty c h md uuid now) s
  = if allowed s c then
      match validateAssetRegistration t c h ty md (counted s c) with
      | (s1, inr checked) =>
          let asset :=
            {| assetId := uuid; title := t; description := d;
               assetType := checked.1; creatorId := c; contentHash := h;
               registrationDate := now; lastModified := now;
               transferHistory := []; status := ACTIVE;
               metadata := checked.2 |} in
          ({| assetStorage := <[uuid := asset]> (assetStorage s1);
              creatorAssets := appendEntry (creatorAssets s1) c uuid;
              rateLimiter := rateLimiter s1;
              timers := timers s1 |}, JsonAsset asset)
      | (s1, inl e) => (s1, handleError e)
      end
    else (s, JsonError 429 "Too many requests").
Proof.
  unfold tryCatch, createAsset.
  cbv [mbind M_bind]. rewrite rateLimit_eq.
  destruct (allowed s c); [|reflexivity]. cbn [negb].
  destruct (validateAssetRegistration t c h ty md (counted s c))
    as [s1 [e|checked]]; [reflexivity|].
  cbv [assetStorage_insert creatorAssets_get creatorAssets_insert mret M_ret
       appendEntry]. cbn [assetStorage creatorAssets rateLimiter timers].
  by destruct (creatorAssets s1 !! c).
Qed.

(** X1. A registration that the rate limiter lets through and that
    passes validation answers the new asset: ACTIVE, with an empty
    transfer history and [registrationDate] and [lastModified] at [now].
    The asset is stored under its id, the id is put at the end of the
    creator's index entry (a new entry if there was none), the creator's
    request count goes up by one and one reset timer is queued. *)
Theorem createAsset_success s t d ty c h md uuid now :
  allowed s c = true →
  validRegistration t c h (Some ty) (Some md) = true →
  let asset :=
    {| assetId := uuid; title := t; description := d; assetType := ty;
       creatorId := c; contentHash := h; registrationDate := now;
       lastModified := now; transferHistory := []; status := ACTIVE;
       metadata := md |} in
  exec s (CreateAsset t d (Some ty) c h (Some md) uuid now)
  = ({| assetStorage := <[uuid := asset]> (assetStorage s);
        creatorAssets := appendEntry (creatorAssets s) c uuid;
        rateLimiter :=
          <[c := default 0 (rateLimiter s !! c) + 1]> (rateLimiter s);
        timers := timers s ++ [(c, default 0 (rateLimiter s !! c))] |},
     Some (JsonAsset asset)).
Proof.
  intros Hal Hv. cbn [exec]. unfold prod_map. rewrite createAsset_run, Hal.
  destruct (validate_eq t c h (Some ty) (Some md) (counted s c) Hv)
    as (ty' & md' & [= <-] & [= <-] & ->).
  reflexivity.
Qed.

Lemma createAsset_success_witness :
  exec init (register "asset-1")
  = ({| assetStorage := <["asset-1" := monaLisa]> ∅;
        creatorAssets := appendEntry ∅ U1 "asset-1";
        rateLimiter := <[U1 := 1]> ∅;
        timers := [(U1, 0)] |}, Some (JsonAsset monaLisa)).
Proof.
  exact (createAsset_success init "Mona Lisa Digital" "A digital representation"
           IMAGE U1 zeros64 png "asset-1" 1000 eq_refl eq_refl).
Defined.

(** X2. With ten or more requests counted for the creator, a
    registration answers 429 whatever its fields, valid or not, and
    writes nothing. *)
Theorem createAsset_rate_limited s t d ty c h md uuid now :
  allowed s c = false →
  exec s (CreateAsset t d ty c h md uuid now)
  = (s, Some (JsonError 429 "Too many requests")).
Proof.
  intros Hal. cbn [exec]. unfold prod_map. by rewrite createAsset_run, Hal.
Qed.

Lemma createAsset_rate_limited_witness :
  exec (run init tenRegistrations) (register "a11")
  = (run init tenRegistrations, Some (JsonError 429 "Too many requests")).
Proof.
  apply createAsset_rate_limited. vm_compute. reflexivity.
Defined.

(** X3. The rate limiter counts before validation: a registration
    it lets through and validation rejects answers 400 and stores no
    asset, but the creator's count has gone up and a reset timer is
    queued. *)
Theorem createAsset_invalid_counts s t d ty c h md uuid now :
  allowed s c = true →
  validRegistration t c h ty md = false →
  ∃ m, exec s (CreateAsset t d ty c h md uuid now)
       = (counted s c, Some (JsonError 400 m)).
Proof.
  intros Hal Hv. cbn [exec]. unfold prod_map. rewrite createAsset_run, Hal.
  destruct (validate_invalid t c h ty md (counted s c) Hv) as [m ->].
  by exists m.
Qed.

Lemma createAsset_invalid_counts_witness :
  ∃ m, exec init (CreateAsset EmptyString "no title" (Some IMAGE) U1 zeros64 (Some png)
                    "asset-1" 1000)
       = (counted init U1, Some (JsonError 400 m)).
Proof.
  apply createAsset_invalid_counts; reflexivity.
Defined.

Lemma counted_counter s u :
  default 0 (rateLimiter (counted s u) !! u)
  = default 0 (rateLimiter s !! u) + 1.
Proof. cbn. by rewrite lookup_insert_eq. Qed.

Lemma create_counter s t d ty c h md uuid now :
  default 0 (rateLimiter (exec s (CreateAsset t d ty c h md uuid now)).1 !! c)
  = if allowed s c then default 0 (rateLimiter s !! c) + 1
    else default 0 (rateLimiter s !! c).
Proof.
  cbn [exec]. unfold prod_map. rewrite createAsset_run.
  destruct (allowed s c) eqn:Hal; [|done].
  destruct (validRegistration t c h ty md) eqn:Hv.
  - destruct (validate_eq t c h ty md (counted s c) Hv)
      as (ty' & md' & -> & -> & ->). cbn. by rewrite lookup_insert_eq.
  - destruct (validate_invalid t c h ty md (counted s c) Hv) as [m ->].
    cbn. by rewrite lookup_insert_eq.
Qed.

Lemma rate_counter_saturates s u ops :
  Forall (λ op, registeredBy op = Some u) ops →
  0 ≤ default 0 (rateLimiter s !! u) ≤ 10 →
  default 0 (rateLimiter (run s ops) !! u)
  = Z.min 10 (default 0 (rateLimiter s !! u) + Z.of_nat (length ops)).
Proof.
  intros Hops. revert s. induction Hops as [|op rest Hop _ IH]; intros s Hc.
  - cbn. lia.
  - destruct op as [t d ty c h md uuid now| | | | | | |]; try discriminate.
    injection Hop as ->. cbn [run length]. rewrite IH; rewrite create_counter; unfold allowed;
      destruct (Z.ltb_spec (default 0 (rateLimiter s !! u)) 10); lia.
Qed.

Lemma create_timers s t d ty c h md uuid now :
  timers (exec s (CreateAsset t d ty c h md uuid now)).1
  = if allowed s c then timers s ++ [(c, default 0 (rateLimiter s !! c))]
    else timers s.
Proof.
  cbn [exec]. unfold prod_map. rewrite createAsset_run.
  destruct (allowed s c) eqn:Hal; [|done].
  destruct (validRegistration t c h ty md) eqn:Hv.
  - by destruct (validate_eq t c h ty md (counted s c) Hv)
      as (ty' & md' & -> & -> & ->).
  - by destruct (validate_invalid t c h ty md (counted s c) Hv) as [m ->].
Qed.

Lemma burst_timers s u ops :
  Forall (λ op, registeredBy op = Some u) ops →
  ops ≠ [] →
  0 ≤ default 0 (rateLimiter s !! u) →
  default 0 (rateLimiter s !! u) + Z.of_nat (length ops) ≤ 10 →
  ∃ pending,
    timers (run s ops)
    = timers s ++ pending
      ++ [(u, default 0 (rateLimiter s !! u) + Z.of_nat (length ops) - 1)] ∧
    S (length pending) = length ops.
Proof.
  intros Hops. revert s.
  induction Hops as [|op rest Hop Hrest IH]; intros s Hne H0 Hle; [done|].
  destruct op as [t d ty c h md uuid now| | | | | | |]; try discriminate.
  injection Hop as ->. cbn [run length] in *.
  pose proof (create_counter s t d ty u h md uuid now) as Hcnt.
  pose proof (create_timers s t d ty u h md uuid now) as Htim.
  assert (Hal : allowed s u = true).
  { unfold allowed. apply Z.ltb_lt. lia. }
  rewrite Hal in Hcnt, Htim.
  destruct rest as [|op' rest'].
  - exists []. cbn [run length app]. rewrite Htim. split; [|done].
    do 3 f_equal. lia.
  - destruct (IH (exec s (CreateAsset t d ty u h md uuid now)).1)
      as (pending & Hp & Hlen); [done|lia|cbn [length] in *; lia|].
    exists ((u, default 0 (rateLimiter s !! u)) :: pending).
    rewrite Hp, Htim, Hcnt. split.
    + rewrite <- !app_assoc. cbn. do 5 f_equal. cbn [length]. lia.
    + cbn [length] in *. lia.
Qed.

Lemma fire_pending u n pending s :
  timers s = pending ++ [(u, n)] →
  rateLimiter (run s (replicate (S (length pending)) TimerFires)) !! u = Some n ∧
  timers (run s (replicate (S (length pending)) TimerFires)) = [].
Proof.
  revert s. induction pending as [|[v k] rest IH]; intros s Ht.
  - cbn. unfold timerFires. rewrite Ht. cbn. by rewrite lookup_insert_eq.
  - cbn [length replicate run exec fst]. apply IH.
    unfold timerFires. rewrite Ht. done.
Qed.

(** X5. Each reset timer writes back the count read by its own
    request. After [n] registrations in a row by one creator, with no
    timer pending before and the count not above ten, and the [n] timers
    fired in order, the count is [c + n - 1]: one less than before the
    timers, not [c]. *)
Theorem timers_restore_stale_count s u ops :
  Forall (λ op, registeredBy op = Some u) ops →
  ops ≠ [] →
  timers s = [] →
  0 ≤ default 0 (rateLimiter s !! u) →
  default 0 (rateLimiter s !! u) + Z.of_nat (length ops) ≤ 10 →
  rateLimiter (run s (ops ++ replicate (length ops) TimerFires)) !! u
  = Some (default 0 (rateLimiter s !! u) + Z.of_nat (length ops) - 1).
Proof.
  intros Hops Hne Ht H0 Hle.
  destruct (burst_timers s u ops Hops Hne H0 Hle) as (pending & Hp & Hlen).
  rewrite Ht in Hp. cbn in Hp.
  destruct (fire_pending u _ pending (run s ops) Hp) as [Hfire _].
  rewrite Hlen in Hfire. by rewrite run_app.
Qed.

Lemma timers_restore_stale_count_witness :
  rateLimiter (run init (tenRegistrations ++ replicate 10 TimerFires)) !! U1
  = Some 9.
Proof.
  apply (timers_restore_stale_count init U1 tenRegistrations).
  - unfold tenRegistrations. repeat constructor.
  - discriminate.
  - reflexivity.
  - vm_compute. discriminate.
  - vm_compute. discriminate.
Defined.

(** X4. Registrations by one creator, valid or not, use up the quota
    of ten: with [c] requests counted before, after [10 - c] or more of
    them in a row the next one answers 429 and writes nothing. *)
Theorem quota_exhausted s u ops t d ty h md uuid now :
  Forall (λ op, registeredBy op = Some u) ops →
  0 ≤ default 0 (rateLimiter s !! u) ≤ 10 →
  10 ≤ default 0 (rateLimiter s !! u) + Z.of_nat (length ops) →
  exec (run s ops) (CreateAsset t d ty u h md uuid now)
  = (run s ops, Some (JsonError 429 "Too many requests")).
Proof.
  intros Hops Hc Hn. cbn [exec]. unfold prod_map. rewrite createAsset_run.
  unfold allowed. rewrite (rate_counter_saturates s u ops Hops Hc).
  destruct (Z.ltb_spec (Z.min 10 (default 0 (rateLimiter s !! u)
                                  + Z.of_nat (length ops))) 10); [lia|done].
Qed.

Lemma quota_exhausted_witness :
  exec (run init tenRegistrations) (register "a11")
  = (run init tenRegistrations, Some (JsonError 429 "Too many requests")).
Proof.
  apply (quota_exhausted init U1 tenRegistrations).
  - unfold tenRegistrations. repeat constructor.
  - vm_compute. split; discriminate.
  - vm_compute. discriminate.
Defined.

(** ** The life of a stored asset *)

Lemma sameIdentity_refl a : sameIdentity a a.
Proof. by repeat split. Qed.

Lemma sameIdentity_trans a b c :
  sameIdentity a b → sameIdentity b c → sameIdentity a c.
Proof.
  unfold sameIdentity. intros (?&?&?&?&?&?&?) (?&?&?&?&?&?&?).
  repeat split; congruence.
Qed.

(** What one event does to an asset of the store. *)
Lemma exec_assetStep s op k a :
  storeKeyed s → freshOp s op = true →
  assetStorage s !! k = Some a →
  ∃ a', assetStorage (exec s op).1 !! k = Some a' ∧
        sameIdentity a a' ∧ (a' = a ∨ assetStep a a').
Proof.
  intros Hkey Hfresh Ha. destruct op as
    [t d ty c h md uuid now|i|c p l|i from to type uuid now
    |i c patch now|i c now|i c now|].
  - cbn in Hfresh. apply bool_decide_eq_true in Hfresh.
    assert (uuid ≠ k) by congruence.
    cbn [exec]. unfold prod_map. rewrite createAsset_run.
    destruct (allowed s c); [|asset_unchanged a].
    destruct (validRegistration t c h ty md) eqn:Hv.
    + destruct (validate_eq t c h ty md (counted s c) Hv)
        as (ty' & md' & -> & -> & ->).
      cbn. rewrite lookup_insert_ne by done. asset_unchanged a.
    + destruct (validate_invalid t c h ty md (counted s c) Hv) as [m ->].
      asset_unchanged a.
  - unfold_handler. destruct (assetStorage s !! i); asset_unchanged a.
  - unfold_handler. destruct (creatorAssets s !! c); [|asset_unchanged a].
    unfold_handler. rewrite resolveAssets_eq. asset_unchanged a.
  - destruct (assetStorage s !! i) as [b|] eqn:Hb;
      [|run_handler; asset_unchanged a].
    pose proof (Hkey _ _ Hb) as Hid.
    destruct (decide (creatorId b = from)) as [Hc|Hc];
      [|run_handler; asset_unchanged a].
    destruct (decide (status b = ACTIVE)) as [Hst|Hst];
      [|run_handler; asset_unchanged a].
    destruct type.
    + destruct (creatorAssets s !! creatorId b) as [old|] eqn:Hold;
        [|run_handler; asset_unchanged a].
      destruct (<[creatorId b := filter (λ j, j ≠ assetId b) old]>
                  (creatorAssets s) !! to) as [l|] eqn:Hl;
        run_handler; rewrite Hid; cbn [fst assetStorage];
        asset_rewritten i k a;
        by eapply (step_transfer _ _ (transferRecord a to FULL uuid now)).
    + run_handler. rewrite Hid. cbn [fst assetStorage].
      asset_rewritten i k a.
      by eapply (step_transfer _ _ (transferRecord a to LICENSE uuid now)).
  - destruct (assetStorage s !! i) as [b|] eqn:Hb;
      [|run_handler; asset_unchanged a].
    pose proof (Hkey _ _ Hb) as Hid.
    destruct (decide (creatorId b = c)) as [Hc|Hc];
      [|run_handler; asset_unchanged a].
    run_handler. rewrite Hid. cbn [fst assetStorage].
    asset_rewritten i k a. by eapply (step_update _ _ patch).
  - destruct (assetStorage s !! i) as [b|] eqn:Hb;
      [|run_handler; asset_unchanged a].
    pose proof (Hkey _ _ Hb) as Hid.
    destruct (decide (creatorId b = c)) as [Hc|Hc];
      [|run_handler; asset_unchanged a].
    destruct (decide (status b = REVOKED)) as [Hst|Hst];
      [run_handler; asset_unchanged a|].
    run_handler. rewrite Hid. cbn [fst assetStorage].
    asset_rewritten i k a. by eapply step_revoke.
  - destruct (assetStorage s !! i) as [b|] eqn:Hb;
      [|run_handler; asset_unchanged a].
    pose proof (Hkey _ _ Hb) as Hid.
    destruct (decide (creatorId b = c)) as [Hc|Hc];
      [|run_handler; asset_unchanged a].
    run_handler. rewrite Hid. cbn [fst assetStorage].
    asset_rewritten i k a. by eapply step_delete.
  - cbn. unfold timerFires. destruct (timers s) as [|[u n] rest];
      asset_unchanged a.
Qed.

(** Where an asset of the store after an event comes from. *)
Lemma exec_asset_origin s op k a' :
  storeKeyed s → freshOp s op = true →
  assetStorage (exec s op).1 !! k = Some a' →
  (∃ a, assetStorage s !! k = Some a ∧ sameIdentity a a' ∧
        (a' = a ∨ assetStep a a')) ∨
  (assetStorage s !! k = None ∧ transferHistory a' = [] ∧ status a' = ACTIVE).
Proof.
  intros Hkey Hfresh Ha'.
  destruct (assetStorage s !! k) as [a|] eqn:Ha.
  - left. destruct (exec_assetStep s op k a Hkey Hfresh Ha)
      as (a'' & Ha'' & Hid & Hstep).
    exists a. by simplify_eq.
  - right. split; [done|].
    destruct (exec_effect s op Hkey Hfresh)
      as [Hst _|uuid b Hnew Hst Hid Hh Hstat _|j b b' Hb Hst _ _ _ _ _
         |j b b' t old Hb _ Hst _ _ _ _ _ _ _]; rewrite Hst in Ha'.
    + congruence.
    + destruct (decide (uuid = k)) as [->|].
      * rewrite lookup_insert_eq in Ha'. by simplify_eq.
      * rewrite lookup_insert_ne in Ha' by done. congruence.
    + destruct (decide (j = k)) as [->|]; [congruence|].
      rewrite lookup_insert_ne in Ha' by done. congruence.
    + destruct (decide (j = k)) as [->|]; [congruence|].
      rewrite lookup_insert_ne in Ha' by done. congruence.
Qed.

(** A property of assets that registration establishes and every rewrite
    keeps holds of every asset of every reachable state. *)
Lemma reachable_asset_invariant (P : DigitalAsset → Prop) :
  (∀ a, transferHistory a = [] → status a = ACTIVE → P a) →
  (∀ a a', P a → sameIdentity a a' → assetStep a a' → P a') →
  ∀ s, reachable s → ∀ k a, assetStorage s !! k = Some a → P a.
Proof.
  intros Hnew Hstep s (ops & Hfresh & <-).
  assert (Hgen : ∀ s0, storeKeyed s0 →
            (∀ k a, assetStorage s0 !! k = Some a → P a) →
            freshRun s0 ops = true →
            ∀ k a, assetStorage (run s0 ops) !! k = Some a → P a).
  { clear Hfresh. induction ops as [|op rest IH]; intros s0 Hkey HP Hfresh;
      [done|].
    cbn in Hfresh. apply andb_prop in Hfresh as [Hop Hrest].
    cbn [run]. apply IH; [| |done].
    - eapply effect_storeKeyed; [|done]. by apply exec_effect.
    - intros k a' Ha'.
      destruct (exec_asset_origin s0 op k a' Hkey Hop Ha')
        as [(a & Ha & Hid & [->|Hs])|(_ & Hh & Hst)]; eauto. }
  apply Hgen; [apply init_storeKeyed| |done].
  intros k a. cbn. by rewrite lookup_empty.
Qed.

Lemma run_assetSteps s ops k a :
  storeKeyed s → freshRun s ops = true →
  assetStorage s !! k = Some a →
  ∃ a', assetStorage (run s ops) !! k = Some a' ∧ sameIdentity a a' ∧
        (status a ≠ ACTIVE → status a' ≠ ACTIVE).
Proof.
  revert s a. induction ops as [|op rest IH]; intros s a Hkey Hfresh Ha.
  - exists a. split; [done|]. split; [apply sameIdentity_refl|done].
  - cbn in Hfresh. apply andb_prop in Hfresh as [Hop Hrest].
    destruct (exec_assetStep s op k a Hkey Hop Ha) as (a1 & Ha1 & Hid1 & Hs1).
    assert (Hkey1 : storeKeyed (exec s op).1).
    { eapply effect_storeKeyed; [|done]. by apply exec_effect. }
    destruct (IH _ a1 Hkey1 Hrest Ha1) as (a' & Ha' & Hid' & Hst').
    exists a'. split; [done|]. split; [by eapply sameIdentity_trans|].
    intros Hna. apply Hst'.
    destruct Hs1 as [->|[t Hact _ _ _ _|patch _ Hst _|_ Hst _ _|Hst _ _]];
      congruence.
Qed.

(** X15. Along any run from a reachable state, with fresh
    identifiers, a stored asset keeps its [id], [title], [description],
    [assetType], [creatorId], [contentHash] and [registrationDate]. *)
Theorem registered_fields_never_change s ops k a :
  reachable s →
  freshRun s ops = true →
  assetStorage s !! k = Some a →
  ∃ a', assetStorage (run s ops) !! k = Some a' ∧
        assetId a' = assetId a ∧ title a' = title a ∧
        description a' = description a ∧ assetType a' = assetType a ∧
        creatorId a' = creatorId a ∧ contentHash a' = contentHash a ∧
        registrationDate a' = registrationDate a.
Proof.
  intros Hr Hfresh Ha.
  destruct (run_assetSteps s ops k a (reachable_storeKeyed s Hr) Hfresh Ha)
    as (a' & Ha' & Hid & _).
  by exists a'.
Qed.

Lemma registered_fields_never_change_witness :
  ∃ a', assetStorage (run (run init scenarioC) laterEvents) !! "asset-1"
        = Some a' ∧
        assetId a' = "asset-1" ∧ title a' = "Mona Lisa Digital" ∧
        description a' = "A digital representation" ∧
        assetType a' = IMAGE ∧ creatorId a' = U1 ∧
        contentHash a' = zeros64 ∧ registrationDate a' = 1000.
Proof.
  exact (registered_fields_never_change (run init scenarioC) laterEvents
           "asset-1" monaLisaLicensed reachable_scenarioC eq_refl eq_refl).
Defined.

(** X16. No event makes an asset ACTIVE again: an asset that is
    not ACTIVE is refused for transfer, with a 400, after any run. *)
Theorem retired_asset_never_transfers s ops k a to type uuid now :
  reachable s →
  freshRun s ops = true →
  assetStorage s !! k = Some a →
  status a ≠ ACTIVE →
  exec (run s ops) (TransferAsset k (creatorId a) to type uuid now)
  = (run s ops, Some (JsonError 400 "Asset is not available for transfer")).
Proof.
  intros Hr Hfresh Ha Hst.
  destruct (run_assetSteps s ops k a (reachable_storeKeyed s Hr) Hfresh Ha)
    as (a' & Ha' & (_ & _ & _ & _ & Hc & _) & Hst').
  specialize (Hst' Hst). run_handler. reflexivity.
Qed.

Lemma retired_asset_never_transfers_witness :
  exec (run (run init scenarioE) [DeleteAsset "asset-1" U1 6000;
                                  register "asset-2"])
       (TransferAsset "asset-1" U1 U2 LICENSE "transfer-9" 7000)
  = (run (run init scenarioE) [DeleteAsset "asset-1" U1 6000;
                               register "asset-2"],
     Some (JsonError 400 "Asset is not available for transfer")).
Proof.
  apply (retired_asset_never_transfers (run init scenarioE) _ "asset-1"
           monaLisaRevoked).
  - apply reachable_scenarioE.
  - reflexivity.
  - reflexivity.
  - discriminate.
Defined.

(** X17. Who [isAuthorized] accepts for a stored asset is the same
    after any run as before: the [creatorId] at registration; a FULL
    transfer among the events does not change it. *)
Theorem authorization_never_changes s ops k a user :
  reachable s →
  freshRun s ops = true →
  assetStorage s !! k = Some a →
  isAuthorized k user (run s ops)
  = (run s ops, inr (bool_decide (creatorId a = user))) ∧
  isAuthorized k user s = (s, inr (bool_decide (creatorId a = user))).
Proof.
  intros Hr Hfresh Ha.
  destruct (run_assetSteps s ops k a (reachable_storeKeyed s Hr) Hfresh Ha)
    as (a' & Ha' & (_ & _ & _ & _ & Hc & _) & _).
  cbv [isAuthorized assetStorage_get mbind mret M_bind M_ret].
  by rewrite Ha, Ha', Hc.
Qed.

Lemma authorization_never_changes_witness :
  isAuthorized "asset-1" U2 (run (run init scenarioA) [TransferAsset "asset-1" U1 U2 FULL "transfer-1" 2000])
  = (run (run init scenarioA) [TransferAsset "asset-1" U1 U2 FULL "transfer-1" 2000], inr false).
Proof.
  exact (proj1 (authorization_never_changes (run init scenarioA)
           [TransferAsset "asset-1" U1 U2 FULL "transfer-1" 2000]
           "asset-1" monaLisa U2 reachable_scenarioA eq_refl eq_refl)).
Defined.

(** X14. In every reachable state, every Transfer record of a stored
    asset has the [creatorId] of the asset as [fromId]; a FULL record
    is the last record of the history and its asset is not ACTIVE; and
    the history of a TRANSFERRED asset ends with a FULL record. *)
Theorem history_shape s k a :
  reachable s →
  assetStorage s !! k = Some a →
  (∀ t, t ∈ transferHistory a → fromId t = creatorId a) ∧
  (∀ n t, transferHistory a !! n = Some t → transferType t = FULL →
          S n = length (transferHistory a) ∧ status a ≠ ACTIVE) ∧
  (status a = TRANSFERRED →
   ∃ t, last (transferHistory a) = Some t ∧ transferType t = FULL).
Proof.
  intros Hr. revert k a.
  apply (reachable_asset_invariant (λ a,
    (∀ t, t ∈ transferHistory a → fromId t = creatorId a) ∧
    (∀ n t, transferHistory a !! n = Some t → transferType t = FULL →
            S n = length (transferHistory a) ∧ status a ≠ ACTIVE) ∧
    (status a = TRANSFERRED →
     ∃ t, last (transferHistory a) = Some t ∧ transferType t = FULL)));
    [| |done].
  - intros a Hh Hst. rewrite Hh. split; [by intros t ?%elem_of_nil|].
    split; [by intros n t ?|]. congruence.
  - intros a a' (Hfrom & Hfull & Hlast) (_ & _ & _ & _ & Hc & _)
      [t Hact Hft Hh Hst _|patch Hh Hst _|Hnr Hst Hh _|Hst Hh _];
      rewrite ?Hh, ?Hc.
    + split; [|split].
      * intros t' [Hin| ->%list_elem_of_singleton]%elem_of_app; auto.
      * intros n t' Hn Hfl. rewrite length_app. cbn.
        destruct (decide (n < length (transferHistory a))%nat) as [Hlt|Hge].
        -- rewrite lookup_app_l in Hn by done.
           destruct (Hfull n t' Hn Hfl) as [_ Hna]. done.
        -- rewrite lookup_app_r in Hn by lia.
           destruct (n - length (transferHistory a))%nat as [|m] eqn:Hm;
             [|done]. cbn in Hn. simplify_eq.
           rewrite Hst, bool_decide_eq_true_2 by done. split; [lia|done].
      * rewrite Hst. case_bool_decide as Hfl; [|done]. intros _.
        exists t. by rewrite last_snoc.
    + split; [done|]. split.
      * intros n t Hn Hfl. destruct (Hfull n t Hn Hfl). split; congruence.
      * rewrite Hst. done.
    + split; [done|]. split.
      * intros n t Hn Hfl. destruct (Hfull n t Hn Hfl). split; congruence.
      * congruence.
    + split; [done|]. split.
      * intros n t Hn Hfl. destruct (Hfull n t Hn Hfl). split; congruence.
      * congruence.
Qed.

Lemma history_shape_witness :
  (∀ t, t ∈ transferHistory monaLisaTransferred → fromId t = U1) ∧
  (∀ n t, transferHistory monaLisaTransferred !! n = Some t →
          transferType t = FULL →
          S n = 1%nat ∧ status monaLisaTransferred ≠ ACTIVE) ∧
  (status monaLisaTransferred = TRANSFERRED →
   ∃ t, last (transferHistory monaLisaTransferred) = Some t ∧
        transferType t = FULL).
Proof.
  exact (history_shape (run init scenarioB) "asset-1" monaLisaTransferred
           reachable_scenarioB eq_refl).
Defined.

(** ** Metadata updates, delete, revoke and reading back *)

Lemma mergeMetadata_assoc m p q :
  mergeMetadata (mergeMetadata m p) q = mergeMetadata m (mergeMetadata p q).
Proof.
  destruct m, p, q. unfold mergeMetadata. cbn.
  f_equal; by match goal with |- context [from_option _ _ ?x] => destruct x end.
Qed.

Lemma putAsset_twice s i a b : putAsset (putAsset s i a) i b = putAsset s i b.
Proof. unfold putAsset. cbn. by rewrite insert_insert_eq. Qed.

Lemma updateAssetMetadata_run s i c patch now a :
  assetStorage s !! i = Some a → assetId a = i → creatorId a = c →
  exec s (UpdateAssetMetadata i c patch now)
  = (putAsset s i
       {| assetId := assetId a; title := title a;
          description := description a; assetType := assetType a;
          creatorId := creatorId a; contentHash := contentHash a;
          registrationDate := registrationDate a; lastModified := now;
          transferHistory := transferHistory a; status := status a;
          metadata := mergeMetadata (metadata a) patch |},
     Some (JsonAsset
       {| assetId := assetId a; title := title a;
          description := description a; assetType := assetType a;
          creatorId := creatorId a; contentHash := contentHash a;
          registrationDate := registrationDate a; lastModified := now;
          transferHistory := transferHistory a; status := status a;
          metadata := mergeMetadata (metadata a) patch |})).
Proof. intros Ha Hid Hc. run_handler. rewrite Hid. reflexivity. Qed.

(** X19. A metadata update asked by the creator succeeds whatever
    the status of the asset, DELETED and REVOKED included. Each metadata
    field takes the value of the request where the request has one and
    keeps its value otherwise; [lastModified] is [now]; status, history
    and the registered fields stay. *)
Theorem metadata_update_any_status s i c patch now a :
  assetStorage s !! i = Some a →
  assetId a = i →
  creatorId a = c →
  ∃ a',
    exec s (UpdateAssetMetadata i c patch now)
      = (putAsset s i a', Some (JsonAsset a')) ∧
    sameIdentity a a' ∧
    status a' = status a ∧
    transferHistory a' = transferHistory a ∧
    lastModified a' = now ∧
    fileFormat (metadata a')
      = from_option Some (fileFormat (metadata a)) (fileFormat patch) ∧
    fileSize (metadata a')
      = from_option Some (fileSize (metadata a)) (fileSize patch) ∧
    dimensions (metadata a')
      = from_option Some (dimensions (metadata a)) (dimensions patch) ∧
    duration (metadata a')
      = from_option Some (duration (metadata a)) (duration patch) ∧
    additionalTags (metadata a')
      = from_option Some (additionalTags (metadata a)) (additionalTags patch).
Proof.
  intros Ha Hid Hc. eexists. split.
  - by apply updateAssetMetadata_run.
  - by repeat split.
Qed.

Lemma metadata_update_any_status_witness :
  ∃ a',
    exec (run init scenarioE) (UpdateAssetMetadata "asset-1" U1 retagged 4000)
      = (putAsset (run init scenarioE) "asset-1" a', Some (JsonAsset a')) ∧
    status a' = REVOKED ∧
    fileFormat (metadata a') = Some "PNG" ∧
    dimensions (metadata a') = Some "4000x3000".
Proof.
  destruct (metadata_update_any_status (run init scenarioE) "asset-1" U1
              retagged 4000 monaLisaRevoked eq_refl eq_refl eq_refl)
    as (a' & He & _ & Hst & _ & _ & Hff & _ & Hdim & _).
  exists a'. repeat split; assumption.
Defined.

(** X20. Two metadata updates of an asset by its creator, one
    after the other, leave the state and the answer of one update with
    the second patch laid over the first. *)
Theorem metadata_updates_compose s i c p q now1 now2 a :
  assetStorage s !! i = Some a →
  assetId a = i →
  creatorId a = c →
  exec (exec s (UpdateAssetMetadata i c p now1)).1
       (UpdateAssetMetadata i c q now2)
  = exec s (UpdateAssetMetadata i c (mergeMetadata p q) now2).
Proof.
  intros Ha Hid Hc.
  rewrite (updateAssetMetadata_run s i c p now1 a) by done.
  rewrite (updateAssetMetadata_run s i c (mergeMetadata p q) now2 a) by done.
  cbn [fst].
  erewrite updateAssetMetadata_run;
    [|unfold putAsset; cbn; apply lookup_insert_eq|done|done].
  cbn [assetId title description assetType creatorId contentHash
       registrationDate transferHistory status metadata].
  by rewrite putAsset_twice, mergeMetadata_assoc.
Qed.

Lemma metadata_updates_compose_witness :
  exec (exec (run init scenarioA)
          (UpdateAssetMetadata "asset-1" U1 jpeg 4000)).1
       (UpdateAssetMetadata "asset-1" U1 retagged 5000)
  = exec (run init scenarioA)
      (UpdateAssetMetadata "asset-1" U1 (mergeMetadata jpeg retagged) 5000).
Proof.
  exact (metadata_updates_compose (run init scenarioA) "asset-1" U1 jpeg
           retagged 4000 5000 monaLisa eq_refl eq_refl eq_refl).
Defined.

Lemma deleteAsset_run s i c now a :
  assetStorage s !! i = Some a → assetId a = i → creatorId a = c →
  exec s (DeleteAsset i c now)
  = (putAsset s i (withStatus a DELETED now),
     Some (JsonMessage "Asset deleted successfully")).
Proof. intros Ha Hid Hc. run_handler. rewrite Hid. reflexivity. Qed.

Lemma revokeAsset_run s i c now a :
  assetStorage s !! i = Some a → assetId a = i → creatorId a = c →
  status a ≠ REVOKED →
  exec s (RevokeAsset i c now)
  = (putAsset s i (withStatus a REVOKED now),
     Some (JsonAsset (withStatus a REVOKED now))).
Proof. intros Ha Hid Hc Hst. run_handler. rewrite Hid. reflexivity. Qed.

(** X21. Deleting an asset twice at the same time leaves the state
    and the answer of deleting it once. *)
Theorem delete_is_idempotent s i c now a :
  assetStorage s !! i = Some a →
  assetId a = i →
  creatorId a = c →
  exec (exec s (DeleteAsset i c now)).1 (DeleteAsset i c now)
  = exec s (DeleteAsset i c now).
Proof.
  intros Ha Hid Hc.
  rewrite (deleteAsset_run s i c now a) by done. cbn [fst].
  erewrite deleteAsset_run;
    [|unfold putAsset; cbn; apply lookup_insert_eq|done|done].
  by rewrite putAsset_twice.
Qed.

Lemma delete_is_idempotent_witness :
  exec (exec (run init scenarioA) (DeleteAsset "asset-1" U1 6000)).1
       (DeleteAsset "asset-1" U1 6000)
  = exec (run init scenarioA) (DeleteAsset "asset-1" U1 6000).
Proof.
  exact (delete_is_idempotent (run init scenarioA) "asset-1" U1 6000 monaLisa
           eq_refl eq_refl eq_refl).
Defined.

(** X22. DELETED is not a final status: a deleted asset can be
    revoked by its creator, which stores status REVOKED, and can then be
    deleted again. *)
Theorem deleted_asset_can_be_revoked s i c now1 now2 a :
  assetStorage s !! i = Some a →
  assetId a = i →
  creatorId a = c →
  ∃ s' a',
    exec (exec s (DeleteAsset i c now1)).1 (RevokeAsset i c now2)
      = (s', Some (JsonAsset a')) ∧
    assetStorage s' !! i = Some a' ∧
    status a' = REVOKED ∧
    exec s' (DeleteAsset i c now1)
      = (putAsset s' i (withStatus a' DELETED now1),
         Some (JsonMessage "Asset deleted successfully")).
Proof.
  intros Ha Hid Hc.
  rewrite (deleteAsset_run s i c now1 a) by done. cbn [fst].
  do 2 eexists. split; [|split; [|split]].
  - apply revokeAsset_run;
      [unfold putAsset; cbn; apply lookup_insert_eq|done|done|done].
  - unfold putAsset. cbn. apply lookup_insert_eq.
  - done.
  - apply deleteAsset_run; [unfold putAsset; cbn; apply lookup_insert_eq|done..].
Qed.

Lemma deleted_asset_can_be_revoked_witness :
  ∃ s' a',
    exec (exec (run init scenarioA) (DeleteAsset "asset-1" U1 6000)).1
         (RevokeAsset "asset-1" U1 7000)
      = (s', Some (JsonAsset a')) ∧
    assetStorage s' !! "asset-1" = Some a' ∧
    status a' = REVOKED.
Proof.
  destruct (deleted_asset_can_be_revoked (run init scenarioA) "asset-1" U1
              6000 7000 monaLisa eq_refl eq_refl eq_refl)
    as (s' & a' & He & Hs & Hst & _).
  exists s', a'. repeat split; assumption.
Defined.

(** X7. On a store keyed by asset ids, whenever an event answers an
    asset, a [GET /assets/:id] for the id of that asset, asked next,
    answers the same asset and writes nothing. *)
Theorem answered_asset_is_stored s op s' a' :
  storeKeyed s →
  exec s op = (s', Some (JsonAsset a')) →
  exec s' (GetAssetById (assetId a')) = (s', Some (JsonAsset a')).
Proof.
  intros Hkey He.
  assert (Hst : assetStorage s' !! assetId a' = Some a').
  { revert He. destruct op as
      [t d ty c h md uuid now|i|c p l|i from to type uuid now
      |i c patch now|i c now|i c now|].
    - cbn [exec]. unfold prod_map. rewrite createAsset_run.
      destruct (allowed s c); [|intros; by simplify_eq].
      destruct (validateAssetRegistration t c h ty md (counted s c))
        as [s1 [e|checked]]; [destruct e; intros; by simplify_eq|].
      cbn. intros [= <- <-]. cbn. apply lookup_insert_eq.
    - unfold_handler. destruct (assetStorage s !! i) as [b|] eqn:Hb;
        intros; simplify_eq. by rewrite (Hkey _ _ Hb).
    - unfold_handler. destruct (creatorAssets s !! c); [|intros; by simplify_eq].
      unfold_handler. rewrite resolveAssets_eq. intros; by simplify_eq.
    - unfold_handler. cbn; repeat (case_match; cbn; simplify_eq);
        intros; simplify_eq; cbn; apply lookup_insert_eq.
    - unfold_handler. cbn; repeat (case_match; cbn; simplify_eq);
        intros; simplify_eq; cbn; apply lookup_insert_eq.
    - unfold_handler. cbn; repeat (case_match; cbn; simplify_eq);
        intros; simplify_eq; cbn; apply lookup_insert_eq.
    - unfold_handler. cbn; repeat (case_match; cbn; simplify_eq);
        intros; by simplify_eq.
    - cbn. intros; by simplify_eq. }
  unfold_handler. by rewrite Hst.
Qed.

Lemma answered_asset_is_stored_witness :
  exec (run init scenarioA) (GetAssetById "asset-1")
  = (run init scenarioA, Some (JsonAsset monaLisa)).
Proof.
  exact (answered_asset_is_stored init (register "asset-1")
           (run init scenarioA) monaLisa init_storeKeyed eq_refl).
Defined.

(** ** Listing *)

Lemma slice_page {A} (l : list A) (page limit : Z) :
  1 ≤ page → 1 ≤ limit →
  slice l ((page - 1) * limit) (page * limit)
  = take (Z.to_nat limit) (drop (Z.to_nat ((page - 1) * limit)) l).
Proof.
  intros Hp Hl. unfold slice.
  assert (0 ≤ (page - 1) * limit) by nia.
  assert (page * limit = (page - 1) * limit + limit) as -> by lia.
  destruct (Z.ltb_spec ((page - 1) * limit) 0); [lia|].
  destruct (Z.ltb_spec ((page - 1) * limit + limit) 0); [lia|].
  destruct (decide ((page - 1) * limit ≤ Z.of_nat (length l))) as [Hle|Hgt].
  - rewrite (Z.min_l _ _ Hle).
    destruct (decide ((page - 1) * limit + limit ≤ Z.of_nat (length l))).
    + rewrite Z.min_l by done. f_equal. lia.
    + rewrite Z.min_r by lia.
      rewrite !take_ge; [done|rewrite length_drop; lia..].
  - rewrite (drop_ge l (Z.to_nat ((page - 1) * limit))) by lia.
    rewrite (Z.min_r ((page - 1) * limit)) by lia.
    by rewrite Nat2Z.id, drop_all, !take_nil.
Qed.

Lemma getAssetsByCreator_run s c qp ql ids :
  creatorAssets s !! c = Some ids →
  exec s (GetAssetsByCreator c qp ql)
  = (s, Some (JsonPage
       (omap (λ i, assetStorage s !! i)
          (slice ids ((orDefault qp 1 - 1) * orDefault ql 10)
                     (orDefault qp 1 * orDefault ql 10)))
       (Z.of_nat (length ids)) (orDefault qp 1) (orDefault ql 10))).
Proof.
  intros Hids. unfold_handler. rewrite Hids. unfold_handler.
  by rewrite resolveAssets_eq.
Qed.

(** X8. For [page] and [limit] at least 1 the listing shows the
    assets of the entries numbered [(page-1)*limit] to [page*limit - 1] of
    the creator's index entry, in the order of the entry, leaving out the
    ids that the asset store does not hold; the state is not written. *)
Theorem page_contents s c page limit ids :
  creatorAssets s !! c = Some ids →
  1 ≤ page → 1 ≤ limit →
  exec s (GetAssetsByCreator c (Some page) (Some limit))
  = (s, Some (JsonPage
       (omap (λ i, assetStorage s !! i)
          (take (Z.to_nat limit) (drop (Z.to_nat ((page - 1) * limit)) ids)))
       (Z.of_nat (length ids)) page limit)).
Proof.
  intros Hids Hp Hl. rewrite (getAssetsByCreator_run s c _ _ ids Hids).
  assert (Hpage : orDefault (Some page) 1 = page).
  { cbn. destruct (Z.eqb_spec page 0); [lia|done]. }
  assert (Hlimit : orDefault (Some limit) 10 = limit).
  { cbn. destruct (Z.eqb_spec limit 0); [lia|done]. }
  by rewrite Hpage, Hlimit, slice_page.
Qed.

Lemma page_contents_witness :
  exec (run init scenarioF) (GetAssetsByCreator U1 (Some 2) (Some 10))
  = (run init scenarioF,
     Some (JsonPage
       (omap (λ i, assetStorage (run init scenarioF) !! i)
             ["a11"; "a12"; "a13"; "a14"; "a15"]) 15 2 10)).
Proof.
  apply (page_contents (run init scenarioF) U1 2 10 fifteenIds).
  - vm_compute. reflexivity.
  - lia.
  - lia.
Defined.

(** X9. A [page] that is missing, not a number or 0 is page 1,
    and such a [limit] is 10: the listing then shows the first ten ids
    of the entry. *)
Theorem default_page_is_first_ten s c qp ql ids :
  creatorAssets s !! c = Some ids →
  qp = None ∨ qp = Some 0 →
  ql = None ∨ ql = Some 0 →
  exec s (GetAssetsByCreator c qp ql)
  = (s, Some (JsonPage (omap (λ i, assetStorage s !! i) (take 10 ids))
                       (Z.of_nat (length ids)) 1 10)).
Proof.
  intros Hids Hp Hl. rewrite (getAssetsByCreator_run s c _ _ ids Hids).
  assert (orDefault qp 1 = 1) as -> by (by destruct Hp as [-> | ->]).
  assert (orDefault ql 10 = 10) as -> by (by destruct Hl as [-> | ->]).
  by rewrite (slice_page ids 1 10).
Qed.

Lemma default_page_is_first_ten_witness :
  exec (run init scenarioF) (GetAssetsByCreator U1 None (Some 0))
  = (run init scenarioF,
     Some (JsonPage
       (omap (λ i, assetStorage (run init scenarioF) !! i)
             ["a01"; "a02"; "a03"; "a04"; "a05"; "a06"; "a07"; "a08"; "a09";
              "a10"]) 15 1 10)).
Proof.
  apply (default_page_is_first_ten (run init scenarioF) U1 None (Some 0)
           fifteenIds).
  - vm_compute. reflexivity.
  - by left.
  - by right.
Defined.

(** X10. A negative [limit] is not rejected: on page 1 the listing
    shows the whole entry but its last [-limit] ids, and answers the
    negative [limit] back. *)
Theorem negative_limit_drops_tail s c limit ids :
  creatorAssets s !! c = Some ids →
  limit < 0 →
  exec s (GetAssetsByCreator c (Some 1) (Some limit))
  = (s, Some (JsonPage
       (omap (λ i, assetStorage s !! i)
          (take (Z.to_nat (Z.of_nat (length ids) + limit)) ids))
       (Z.of_nat (length ids)) 1 limit)).
Proof.
  intros Hids Hl. rewrite (getAssetsByCreator_run s c _ _ ids Hids).
  assert (orDefault (Some limit) 10 = limit) as ->.
  { cbn. destruct (Z.eqb_spec limit 0); [lia|done]. }
  cbn [orDefault Z.eqb]. do 3 f_equal. unfold slice.
  change ((1 - 1) * limit) with 0. rewrite Z.mul_1_l.
  destruct (Z.ltb_spec limit 0); [|lia]. cbn [Z.ltb Z.compare].
  rewrite (Z.min_l 0) by lia. cbn [Z.to_nat drop]. do 2 f_equal. lia.
Qed.

Lemma negative_limit_drops_tail_witness :
  exec (run init scenarioF) (GetAssetsByCreator U1 (Some 1) (Some (-5)))
  = (run init scenarioF,
     Some (JsonPage
       (omap (λ i, assetStorage (run init scenarioF) !! i)
             ["a01"; "a02"; "a03"; "a04"; "a05"; "a06"; "a07"; "a08"; "a09";
              "a10"]) 15 1 (-5))).
Proof.
  apply (negative_limit_drops_tail (run init scenarioF) U1 (-5) fifteenIds).
  - vm_compute. reflexivity.
  - lia.
Defined.

(** X11. In every reachable state every id of every index entry is
    in the asset store, so the listing leaves out no id. *)
Theorem reachable_listing_resolves s c :
  reachable s → allResolve s c = true.
Proof.
  intros Hr. destruct (reachable_ownerIndexed s Hr) as [_ Hstored _].
  unfold allResolve. apply forallb_forall. intros i Hi.
  apply bool_decide_eq_true, (Hstored c). by apply list_elem_of_In.
Qed.

Lemma reachable_listing_resolves_witness :
  allResolve (run init scenarioF) U1 = true.
Proof. apply reachable_listing_resolves, reachable_scenarioF. Defined.

(** ** The creator index *)

Lemma effect_entries_NoDup s s' :
  ownerIndexed s →
  (∀ c l, creatorAssets s !! c = Some l → NoDup l) →
  effect s s' →
  ∀ c l, creatorAssets s' !! c = Some l → NoDup l.
Proof.
  intros [Hlist Hstored Hact] Hnd
    [Hst Hix|uuid a' Hnew Hst Hid Hh Hstat Hix
    |k a a' Ha Hst Hid Hc Hstat Hh Hix
    |k a a' t old Ha Hstat Hst Hid Hc Hstat' Ht Hh Hold Hix] c l;
    rewrite Hix; [apply Hnd| |apply Hnd|].
  - unfold appendEntry. destruct (decide (creatorId a' = c)) as [<-|Hne].
    + rewrite lookup_insert_eq. intros [= <-].
      apply NoDup_app. split; [|split].
      * destruct (creatorAssets s !! creatorId a') as [l0|] eqn:Hl0; cbn.
        -- exact (Hnd _ _ Hl0).
        -- apply NoDup_nil_2.
      * intros x Hx ->%list_elem_of_singleton.
        apply Hstored in Hx as [? ?]. congruence.
      * apply NoDup_singleton.
    + rewrite lookup_insert_ne by done. apply Hnd.
  - assert (Hholder : holder a = creatorId a).
    { unfold holder. by rewrite (Hact _ a Ha Hstat). }
    assert (Hnd1 : ∀ c0 l0,
      <[creatorId a := filter (λ j, j ≠ k) old]> (creatorAssets s) !! c0
        = Some l0 → NoDup l0).
    { intros c0 l0. destruct (decide (creatorId a = c0)) as [<-|Hne].
      - rewrite lookup_insert_eq. intros [= <-].
        apply NoDup_filter. exact (Hnd _ _ Hold).
      - rewrite lookup_insert_ne by done. apply Hnd. }
    unfold appendEntry. destruct (decide (toId t = c)) as [<-|Hne].
    + rewrite lookup_insert_eq. intros [= <-].
      apply NoDup_app. split; [|split].
      * destruct (<[creatorId a := filter (λ j, j ≠ k) old]>
                    (creatorAssets s) !! toId t) as [l0|] eqn:Hl0; cbn.
        -- exact (Hnd1 _ _ Hl0).
        -- apply NoDup_nil_2.
      * intros x Hx ->%list_elem_of_singleton.
        apply (elem_of_filterEntry _ _ _ old) in Hx as [Hin Hnot]; [|done].
        apply (Hlist _ a Ha) in Hin. rewrite Hholder in Hin.
        apply Hnot. by split.
      * apply NoDup_singleton.
    + rewrite lookup_insert_ne by done. apply Hnd1.
Qed.

(** X12. In every reachable state a stored asset is listed in the
    entry of one creator only, its holder (the recipient of its FULL
    transfer, its [creatorId] before), no entry lists an id twice, and
    the holder of an ACTIVE asset is its [creatorId]. *)
Theorem asset_listed_exactly_once s k a :
  reachable s →
  assetStorage s !! k = Some a →
  (∀ c, k ∈ default [] (creatorAssets s !! c) ↔ c = holder a) ∧
  (∀ c l, creatorAssets s !! c = Some l → NoDup l) ∧
  (status a = ACTIVE → holder a = creatorId a).
Proof.
  intros Hr Ha.
  assert (Hboth : ownerIndexed s ∧
                  ∀ c l, creatorAssets s !! c = Some l → NoDup l).
  { revert Hr. apply (reachable_invariant (λ s,
      ownerIndexed s ∧ ∀ c l, creatorAssets s !! c = Some l → NoDup l)).
    - split; [apply init_ownerIndexed|]. intros c l. cbn.
      by rewrite lookup_empty.
    - intros s0 s' Hkey [Hown Hnd] Heff. split.
      + by eapply effect_ownerIndexed.
      + by eapply effect_entries_NoDup. }
  destruct Hboth as [[Hlist _ Hact] Hnd].
  split; [by apply Hlist|]. split; [done|].
  intros Hst. unfold holder. by rewrite (Hact k a Ha Hst).
Qed.

Lemma asset_listed_exactly_once_witness :
  (∀ c, "asset-1" ∈ default [] (creatorAssets (run init scenarioB) !! c)
        ↔ c = U2) ∧
  (∀ c l, creatorAssets (run init scenarioB) !! c = Some l → NoDup l) ∧
  (status monaLisaTransferred = ACTIVE →
   holder monaLisaTransferred = creatorId monaLisaTransferred).
Proof.
  exact (asset_listed_exactly_once (run init scenarioB) "asset-1"
           monaLisaTransferred reachable_scenarioB eq_refl).
Defined.

Lemma effect_entries_kept s s' c :
  effect s s' → is_Some (creatorAssets s !! c) → is_Some (creatorAssets s' !! c).
Proof.
  intros [_ Hix|uuid a' _ _ _ _ _ Hix|k a a' _ _ _ _ _ _ Hix
         |k a a' t old _ _ _ _ _ _ _ _ _ Hix] Hc; rewrite Hix;
    unfold appendEntry; try done.
  - destruct (decide (creatorId a' = c)) as [<-|];
      [rewrite lookup_insert_eq; by eexists|by rewrite lookup_insert_ne].
  - destruct (decide (toId t = c)) as [<-|];
      [rewrite lookup_insert_eq; by eexists|rewrite lookup_insert_ne by done].
    destruct (decide (creatorId a = c)) as [<-|];
      [rewrite lookup_insert_eq; by eexists|by rewrite lookup_insert_ne].
Qed.

(** X13. No event removes an index entry: a creator who has an
    entry, empty or not, has one after any run. *)
Theorem index_entries_are_never_removed s ops c :
  reachable s →
  freshRun s ops = true →
  is_Some (creatorAssets s !! c) →
  is_Some (creatorAssets (run s ops) !! c).
Proof.
  intros Hr. pose proof (reachable_storeKeyed s Hr) as Hkey. clear Hr.
  revert s Hkey. induction ops as [|op rest IH]; intros s Hkey Hfresh Hc;
    [done|].
  cbn in Hfresh. apply andb_prop in Hfresh as [Hop Hrest].
  pose proof (exec_effect s op Hkey Hop) as Heff.
  cbn [run]. apply IH; [by eapply effect_storeKeyed|done|].
  by eapply effect_entries_kept.
Qed.

Lemma index_entries_are_never_removed_witness :
  is_Some (creatorAssets (run (run init scenarioC) laterEvents) !! U1).
Proof.
  apply index_entries_are_never_removed.
  - apply reachable_scenarioC.
  - reflexivity.
  - exists ["asset-1"]. reflexivity.
Defined.

(** ** Error answers and edge cases *)

Lemma error_codes s op :
  match (exec s op).2 with
  | Some (JsonError code m) =>
      match op with
      | CreateAsset _ _ _ _ _ _ _ _ => code = 429 ∨ code = 400
      | GetAssetById _ => code = 404
      | GetAssetsByCreator _ _ _ => False
      | TransferAsset _ _ _ _ _ _ => code = 403 ∨ code = 400 ∨ code = 500
      | UpdateAssetMetadata _ _ _ _ => code = 403
      | RevokeAsset _ _ _ => code = 403 ∨ code = 400
      | DeleteAsset _ _ _ => code = 403
      | TimerFires => False
      end
  | _ => True
  end.
Proof.
  destruct op as
    [t d ty c h md uuid now|i|c p l|i from to type uuid now
    |i c patch now|i c now|i c now|].
  - cbn [exec]. unfold prod_map. rewrite createAsset_run.
    destruct (allowed s c); [|cbn; by left].
    destruct (validRegistration t c h ty md) eqn:Hv.
    + by destruct (validate_eq t c h ty md (counted s c) Hv)
        as (ty' & md' & -> & -> & ->).
    + destruct (validate_invalid t c h ty md (counted s c) Hv) as [m' ->].
      cbn. by right.
  - unfold_handler. by destruct (assetStorage s !! i).
  - unfold_handler. destruct (creatorAssets s !! c); [|done].
    unfold_handler. by rewrite resolveAssets_eq.
  - unfold_handler. cbn; repeat (case_match; cbn; simplify_eq); auto.
  - unfold_handler. cbn; repeat (case_match; cbn; simplify_eq); auto.
  - unfold_handler. cbn; repeat (case_match; cbn; simplify_eq); auto.
  - unfold_handler. cbn; repeat (case_match; cbn; simplify_eq); auto.
  - done.
Qed.

(** X23. The error statuses of each operation: registration answers
    only 429 or 400; reading one asset only 404; listing never an error;
    transfer only 403, 400 or 500; metadata update and delete only 403;
    revoke only 403 or 400. *)
Theorem error_statuses s op :
  match (exec s op).2 with
  | Some (JsonError code m) =>
      match op with
      | CreateAsset _ _ _ _ _ _ _ _ => code = 429 ∨ code = 400
      | GetAssetById _ => code = 404
      | GetAssetsByCreator _ _ _ => False
      | TransferAsset _ _ _ _ _ _ => code = 403 ∨ code = 400 ∨ code = 500
      | UpdateAssetMetadata _ _ _ _ => code = 403
      | RevokeAsset _ _ _ => code = 403 ∨ code = 400
      | DeleteAsset _ _ _ => code = 403
      | TimerFires => False
      end
  | _ => True
  end.
Proof. apply error_codes. Qed.

(** X18. A FULL transfer of an ACTIVE asset by its creator to
    the creator itself is accepted: the status becomes TRANSFERRED and the
    id stays in the creator's entry, moved to its end. *)
Theorem self_transfer_moves_to_end s i from uuid now a old :
  assetStorage s !! i = Some a →
  assetId a = i →
  creatorId a = from →
  status a = ACTIVE →
  creatorAssets s !! from = Some old →
  ∃ s' a',
    exec s (TransferAsset i from from FULL uuid now)
      = (s', Some (JsonAsset a')) ∧
    assetStorage s' !! i = Some a' ∧
    status a' = TRANSFERRED ∧
    creatorAssets s'
      = <[from := filter (λ j, j ≠ i) old ++ [i]]> (creatorAssets s).
Proof.
  intros Ha Hid <- Hst Hold.
  assert (Hto : <[creatorId a := filter (λ j, j ≠ assetId a) old]>
                  (creatorAssets s) !! creatorId a
                = Some (filter (λ j, j ≠ assetId a) old))
    by apply lookup_insert_eq.
  do 2 eexists. split; [run_handler; reflexivity|]. cbn.
  rewrite Hid. split; [apply lookup_insert_eq|]. split; [done|].
  apply insert_insert_eq.
Qed.

Lemma self_transfer_moves_to_end_witness :
  ∃ s' a',
    exec (run init scenarioA)
         (TransferAsset "asset-1" U1 U1 FULL "transfer-1" 2000)
      = (s', Some (JsonAsset a')) ∧
    assetStorage s' !! "asset-1" = Some a' ∧
    status a' = TRANSFERRED ∧
    creatorAssets s'
      = <[U1 := ["asset-1"]]> (creatorAssets (run init scenarioA)).
Proof.
  exact (self_transfer_moves_to_end (run init scenarioA) "asset-1" U1
           "transfer-1" 2000 monaLisa ["asset-1"]
           eq_refl eq_refl eq_refl eq_refl eq_refl).
Defined.

(** X25. For a timestamp of 64 bits [getCurrentDate] is the number
    of whole milliseconds in it, and is below [2^53], so that [Number]
    loses nothing. *)
Theorem getCurrentDate_bounds timestampNs :
  0 ≤ timestampNs < 2 ^ 64 →
  0 ≤ getCurrentDate timestampNs < 2 ^ 53 ∧
  getCurrentDate timestampNs * 1000000 ≤ timestampNs
    < (getCurrentDate timestampNs + 1) * 1000000.
Proof.
  intros [H0 Hlt]. unfold getCurrentDate.
  rewrite Z.quot_div_nonneg by lia.
  pose proof (Z.div_mod timestampNs 1000000 ltac:(lia)) as Hdm.
  pose proof (Z.mod_pos_bound timestampNs 1000000 ltac:(lia)) as Hmod.
  assert (0 ≤ timestampNs `div` 1000000) by (apply Z.div_pos; lia).
  assert (timestampNs `div` 1000000 < 2 ^ 53).
  { apply Z.div_lt_upper_bound; lia. }
  lia.
Qed.

Lemma getCurrentDate_bounds_witness :
  0 ≤ getCurrentDate 1700000000123456789 < 2 ^ 53 ∧
  getCurrentDate 1700000000123456789 * 1000000 ≤ 1700000000123456789
    < (getCurrentDate 1700000000123456789 + 1) * 1000000.
Proof. apply getCurrentDate_bounds. lia. Defined.

(** ** The creator id test *)

Lemma matchGroups_last n cs :
  matchGroups [n] cs = true ↔ length cs = n ∧ forallb isHex cs = true.
Proof.
  cbn [matchGroups]. rewrite !andb_true_iff, !bool_decide_eq_true. split.
  - intros [[Hlen Hhex] Hnil].
    assert (Hcs : cs = take n cs).
    { rewrite <- (take_drop n cs) at 1. by rewrite Hnil, app_nil_r. }
    rewrite Hcs. done.
  - intros [Hlen Hhex]. rewrite take_ge, drop_ge by lia. done.
Qed.

Lemma matchGroups_step n m rest cs :
  matchGroups (n :: m :: rest) cs = true
  ↔ ∃ g tl, cs = g ++ hyphen :: tl ∧ length g = n ∧
            forallb isHex g = true ∧ matchGroups (m :: rest) tl = true.
Proof.
  cbn [matchGroups]. split.
  - rewrite !andb_true_iff, !bool_decide_eq_true. intros [[Hlen Hhex] Hrest].
    destruct (drop n cs) as [|c tl] eqn:Hdrop; [done|].
    apply andb_true_iff in Hrest as [->%bool_decide_eq_true Hrest].
    exists (take n cs), tl. split; [|done].
    by rewrite <- Hdrop, take_drop.
  - intros (g & tl & -> & Hlen & Hhex & Hrest).
    rewrite take_app_length', drop_app_length' by done.
    rewrite Hhex, bool_decide_eq_true_2 by done.
    by rewrite (bool_decide_eq_true_2 (hyphen = hyphen)).
Qed.

(** X6. The [creatorId] test of registration accepts exactly the
    strings made of five groups of 8, 4, 4, 4 and 12 hexadecimal digits,
    of either case, with one hyphen between two groups. *)
Theorem isUuid_shape s :
  isUuid s = true
  ↔ ∃ g1 g2 g3 g4 g5,
      chars s = g1 ++ hyphen :: g2 ++ hyphen :: g3 ++ hyphen :: g4
                   ++ hyphen :: g5 ∧
      length g1 = 8%nat ∧ length g2 = 4%nat ∧ length g3 = 4%nat ∧
      length g4 = 4%nat ∧ length g5 = 12%nat ∧
      forallb isHex g1 = true ∧ forallb isHex g2 = true ∧
      forallb isHex g3 = true ∧ forallb isHex g4 = true ∧
      forallb isHex g5 = true.
Proof.
  unfold isUuid. rewrite matchGroups_step. split.
  - intros (g1 & t1 & -> & ? & ? & (g2 & t2 & -> & ? & ? &
      (g3 & t3 & -> & ? & ? & (g4 & g5 & -> & ? & ? &
        [? ?]%matchGroups_last)%matchGroups_step)%matchGroups_step)%matchGroups_step).
    by exists g1, g2, g3, g4, g5.
  - intros (g1 & g2 & g3 & g4 & g5 & -> & ? & ? & ? & ? & ? & ? & ? & ? & ? & ?).
    exists g1, (g2 ++ hyphen :: g3 ++ hyphen :: g4 ++ hyphen :: g5).
    repeat split; try done. apply matchGroups_step.
    exists g2, (g3 ++ hyphen :: g4 ++ hyphen :: g5).
    repeat split; try done. apply matchGroups_step.
    exists g3, (g4 ++ hyphen :: g5).
    repeat split; try done. apply matchGroups_step.
    exists g4, g5. repeat split; try done. by apply matchGroups_last.
Qed.

(** X24. In a reachable state every error answer has status 400,
    403, 404 or 429: no event gets a 500. *)
Theorem reachable_errors_are_request_errors s op :
  reachable s →
  match (exec s op).2 with
  | Some (JsonError code m) =>
      code = 400 ∨ code = 403 ∨ code = 404 ∨ code = 429
  | _ => True
  end.
Proof.
  intros Hr. pose proof (error_codes s op) as Hcodes.
  pose proof (reachable_never_500 s op) as H500.
  destruct (exec s op).2 as [[| | |code m]|]; try done.
  specialize (H500 m Hr).
  destruct op; intuition congruence.
Qed.

Lemma reachable_errors_are_request_errors_witness :
  match (exec (run init scenarioB)
           (TransferAsset "asset-1" U2 U1 FULL "transfer-2" 3000)).2 with
  | Some (JsonError code m) =>
      code = 400 ∨ code = 403 ∨ code = 404 ∨ code = 429
  | _ => True
  end.
Proof.
  exact (reachable_errors_are_request_errors (run init scenarioB)
           (TransferAsset "asset-1" U2 U1 FULL "transfer-2" 3000)
           reachable_scenarioB).
Defined.
